(** * lab-exporter: the network rate tracker, the config synchronisation
      protocol and the report loop of [lab_exporter.py]

    Shallow embedding of [src/lab_exporter.py].

    Modelling conventions.
    - Python [int] byte counters and config versions are [Z].
    - Python [float] values (timestamps, rates) are exact rationals [Q];
      [round(x, 1)] is rounding to one decimal digit, ties to even.  The
      binary representation error of IEEE doubles is outside this model:
      a reported figure is read as the decimal it prints as, and where a
      statement compares it with an exact quotient it allows the
      tolerance [report_tolerance] and does not say which way a value
      half way between two decimals goes.
    - Python dicts used as maps ([_prev], the result of
      [psutil.net_io_counters(pernic=True)], [psutil.net_if_addrs()]) are
      [gmap string _]; the iteration order of [.items()] is the order of
      [map_to_list], nothing below depends on it.
    - The HTTP server, the clock, psutil and the signal are the environment:
      every loop consumes a list of per-iteration inputs and produces a
      trace of observable events. *)

From Stdlib Require Import ZArith QArith Qround Qabs Qminmax Lqa Lia List String.
From stdpp Require Import base gmap strings list fin_maps.
Import ListNotations.

Local Open Scope Z_scope.

(** ** Numbers *)

Module Num.

(** [round(x)] of Python 3 on an exact value: nearest integer, ties to the
    even neighbour. *)
Definition round_half_even (x : Q) : Z :=
  let f := Qfloor x in
  let r := (x - inject_Z f)%Q in
  match (r ?= 1 # 2)%Q with
  | Lt => f
  | Gt => f + 1
  | Eq => if Z.even f then f else f + 1
  end.

(** [round(x, 1)]: one decimal digit. *)
Definition round1 (x : Q) : Q := Qmake (round_half_even (x * 10)) 10.

(** [max(a, b)] of Python: the first argument unless the second is
    strictly greater. *)
Definition py_max (a b : Q) : Q :=
  match (a ?= b)%Q with
  | Lt => b
  | _ => a
  end.

(** A value with at most one decimal digit. *)
Definition tenth_valued (x : Q) : Prop := exists z : Z, (x == z # 10)%Q.

End Num.

(** ** Data model of the network part of a snapshot *)

(** The fields of psutil's [snetio] tuple that the agent reads. *)
Record Counters := { bytes_sent : Z; bytes_recv : Z }.

(** An entry of [psutil.net_if_addrs()]. *)
Inductive AddrFamily := AF_INET | AF_OTHER.
Record Addr := { family : AddrFamily; address : string }.

(** The value [{"rx": ..., "tx": ...}] stored in [_prev] for a NIC. *)
Record PrevBytes := { rx : Z; tx : Z }.

(** An element of [snapshot["nics"]]. *)
Record Nic := { name : string; ipv4 : string; rxMbps : Q; txMbps : Q }.

(** The snapshot dict.  Only the keys which [NetworkRateTracker.update]
    reads or writes are kept; the CPU, memory, GPU, disk and load keys are
    passed through untouched by everything below and are left out. *)
Record Snapshot := { nics : list Nic; networkRxMbps : Q; networkTxMbps : Q }.

(** The monitoring config returned by the server.  [None] is an absent
    key ([config.get(k)] returns [None]). *)
Record MonitorConfig := {
  reportIntervalSec : option Z;
  gpuIndices : option (list Z);
  diskMounts : option (list string);
  nicNames : option (list string)
}.

(** [monitor_config: dict = {}] *)
Definition empty_config : MonitorConfig :=
  {| reportIntervalSec := None; gpuIndices := None;
     diskMounts := None; nicNames := None |}.

Definition DEFAULT_REPORT_INTERVAL : Z := 5.

#[global] Instance AddrFamily_eq_dec : EqDecision AddrFamily.
Proof. solve_decision. Defined.

#[global] Instance MonitorConfig_eq_dec : EqDecision MonitorConfig.
Proof. solve_decision. Defined.

(** ** [collect_snapshot], network part (lines 249-271, 282-284) *)

(** The inner [for addr in nic_addrs[nic_name]] loop: the address of the
    first [AF_INET] entry, the empty string when there is none. *)
Fixpoint first_ipv4 (addr_list : list Addr) : string :=
  match addr_list with
  | [] => EmptyString
  | addr :: rest =>
      if decide (family addr = AF_INET) then address addr else first_ipv4 rest
  end.

Definition lookup_ipv4 (nic_addrs : gmap string (list Addr)) (nic_name : string)
  : string :=
  match nic_addrs !! nic_name with
  | Some addr_list => first_ipv4 addr_list
  | None => EmptyString
  end.

(** [nic_names_cfg is not None and nic_name not in nic_names_cfg] *)
Definition filtered_out (nic_names_cfg : option (list string)) (nic_name : string)
  : bool :=
  match nic_names_cfg with
  | Some l => negb (bool_decide (nic_name ∈ l))
  | None => false
  end.

(** The loop over [net_counters.items()]. *)
Fixpoint collect_nics (nic_names_cfg : option (list string))
    (nic_addrs : gmap string (list Addr))
    (items : list (string * Counters)) : list Nic :=
  match items with
  | [] => []
  | (nic_name, _) :: rest =>
      if bool_decide (nic_name = "lo"%string) then
        collect_nics nic_names_cfg nic_addrs rest
      else if filtered_out nic_names_cfg nic_name then
        collect_nics nic_names_cfg nic_addrs rest
      else
        {| name := nic_name; ipv4 := lookup_ipv4 nic_addrs nic_name;
           rxMbps := 0; txMbps := 0 |}
        :: collect_nics nic_names_cfg nic_addrs rest
  end.

Definition collect_snapshot (config : MonitorConfig)
    (net_counters : gmap string Counters)
    (nic_addrs : gmap string (list Addr)) : Snapshot :=
  {| nics := collect_nics (nicNames config) nic_addrs (map_to_list net_counters);
     networkRxMbps := 0;
     networkTxMbps := 0 |}.

(** ** [NetworkRateTracker] (lines 295-340) *)

Record NetworkRateTracker := {
  _prev : gmap string PrevBytes;
  _prev_time : Q;
  _initialized : bool
}.

(** [NetworkRateTracker.__init__] *)
Definition new_tracker : NetworkRateTracker :=
  {| _prev := ∅; _prev_time := 0; _initialized := false |}.

Definition Qlt_bool (a b : Q) : bool :=
  match (a ?= b)%Q with Lt => true | _ => false end.

(** [dt = now - self._prev_time
          if self._initialized and (now - self._prev_time) > 0 else 0] *)
Definition elapsed (t : NetworkRateTracker) (now : Q) : Q :=
  if _initialized t && Qlt_bool 0 (now - _prev_time t) then (now - _prev_time t)%Q
  else 0%Q.

(** [((cur - prev) * 8) / (dt * 1_000_000)] *)
Definition rate_mbps (cur prev : Z) (dt : Q) : Q :=
  (inject_Z ((cur - prev) * 8) / (dt * 1000000))%Q.

(** The loop-carried variables of the [for nic in snapshot["nics"]] loop. *)
Record Acc := { acc_prev : gmap string PrevBytes; total_rx : Q; total_tx : Q }.

(** One iteration of the loop body (lines 315-335). *)
Definition update_nic (net_counters : gmap string Counters) (dt : Q)
    (acc : Acc) (nic : Nic) : Nic * Acc :=
  match net_counters !! name nic with
  | None => (nic, acc)                                   (* continue *)
  | Some counters =>
      let cur_rx := bytes_recv counters in
      let cur_tx := bytes_sent counters in
      let nic' :=
        match Qlt_bool 0 dt, acc_prev acc !! name nic with
        | true, Some p =>
            {| name := name nic; ipv4 := ipv4 nic;
               rxMbps := Num.round1 (Num.py_max (rate_mbps cur_rx (rx p) dt) 0);
               txMbps := Num.round1 (Num.py_max (rate_mbps cur_tx (tx p) dt) 0) |}
        | _, _ =>
            {| name := name nic; ipv4 := ipv4 nic; rxMbps := 0; txMbps := 0 |}
        end in
      (nic',
       {| acc_prev := <[name nic := {| rx := cur_rx; tx := cur_tx |}]> (acc_prev acc);
          total_rx := (total_rx acc + rxMbps nic')%Q;
          total_tx := (total_tx acc + txMbps nic')%Q |})
  end.

Fixpoint update_loop (net_counters : gmap string Counters) (dt : Q)
    (acc : Acc) (l : list Nic) : list Nic * Acc :=
  match l with
  | [] => ([], acc)
  | nic :: rest =>
      let (nic', acc') := update_nic net_counters dt acc nic in
      let (rest', acc'') := update_loop net_counters dt acc' rest in
      (nic' :: rest', acc'')
  end.

(** [NetworkRateTracker.update(snapshot, config)].  [net_counters] and
    [now] are what [psutil.net_io_counters(pernic=True)] and [time.time()]
    return during the call.  The [config] argument is read into
    [nic_names_cfg] and never used, so it has no effect on the result. *)
Definition update (t : NetworkRateTracker) (snapshot : Snapshot)
    (config : MonitorConfig) (net_counters : gmap string Counters) (now : Q)
  : Snapshot * NetworkRateTracker :=
  let dt := elapsed t now in
  let (nics', acc) :=
    update_loop net_counters dt
      {| acc_prev := _prev t; total_rx := 0; total_tx := 0 |} (nics snapshot) in
  ({| nics := nics';
      networkRxMbps := Num.round1 (total_rx acc);
      networkTxMbps := Num.round1 (total_tx acc) |},
   {| _prev := acc_prev acc; _prev_time := now; _initialized := true |}).

(** How far a reported figure may be from the exact value [x >= 0] it
    stands for: half a unit of the reported decimal digit, and the
    relative error of the double operations that produce it in the
    source (conversion of the byte count, product, quotient, the nearest
    double of the decimal), taken generously as [2 ^ -40]. *)
Definition report_tolerance (x : Q) : Q :=
  ((1 # 20) + (x + 1) * (1 # 2 ^ 40))%Q.

(** [reported] is the rate of the counter going from [prev] to [cur] in
    the time [dt], as far as a report can tell: within the tolerance of
    the exact [max(0, (cur - prev) * 8 / (dt * 1_000_000))], not
    negative, and 0 when the counter went down. *)
Definition measured (reported : Q) (cur prev : Z) (dt : Q) : Prop :=
  let exact := Qmax 0 (inject_Z ((cur - prev) * 8) / (dt * 1000000))%Q in
  (Qabs (reported - exact) <= report_tolerance exact)%Q
  /\ (0 <= reported)%Q
  /\ (cur < prev -> (reported == 0)%Q).

(** A reported rate: non-negative, with one decimal digit. *)
Definition rate_ok (x : Q) : Prop := (0 <= x)%Q /\ Num.tenth_valued x.

(** Sum of a rate over the NICs of a snapshot. *)
Definition sum_rates (f : Nic -> Q) (l : list Nic) : Q :=
  fold_right (fun nic s => (f nic + s)%Q) 0%Q l.

(** ** The environment of [main]: HTTP responses, the signal, events *)

(** The result of a [requests] call: a response with its status code and
    decoded JSON body, or a [requests.RequestException] (timeout,
    connection error ...). *)
Inductive Response (A : Type) : Type :=
| HttpResponse (status_code : Z) (body : A)
| RequestException.
Arguments HttpResponse {A} status_code body.
Arguments RequestException {A}.

(** Body of a report response; [data.get("configVersion", 0)]. *)
Record ReportData := { configVersion : option Z }.

(** Where, inside one loop iteration, SIGINT or SIGTERM is delivered:
    while the HTTP request of the iteration is in flight, or after its
    [time.sleep] has started. *)
Inductive SigPoint := DuringRequest | DuringSleep.

#[global] Instance SigPoint_eq_dec : EqDecision SigPoint.
Proof. solve_decision. Defined.

(** Observable events.  An event marks the start of the action;
    [EvSignal] marks the delivery of the signal, that is the run of
    [signal_handler]. *)
Inductive Event :=
| EvGetConfig                           (* GET /api/monitoring/config *)
| EvPostReport (snapshot : Snapshot)    (* POST /api/monitoring/report *)
| EvWarnStillWaiting (retry_count : Z)  (* log.warning("Still waiting ...") *)
| EvSleep (secs : Z)                    (* time.sleep(secs) *)
| EvSignal.

(** [signal_handler]: [running = False]. *)
Definition signal_handler (running : bool) : bool := false.

(** The flag after an iteration in which the signal was delivered at
    [sig] (if at all), given the points the iteration went through. *)
Definition deliver (sig : option SigPoint) (reached : list SigPoint)
    (running : bool) : bool :=
  match sig with
  | Some pt => if bool_decide (pt ∈ reached) then signal_handler running else running
  | None => running
  end.

Definition sig_events (sig : option SigPoint) (pt : SigPoint) : list Event :=
  if bool_decide (sig = Some pt) then [EvSignal] else [].

(** ** Step 3 of [main]: the initial config pull (lines 474-504) *)

Record FetchInput := {
  fi_resp : Response MonitorConfig;
  fi_signal : option SigPoint
}.

(** How the part of [main] from the [while running] loop of step 3 to the
    [if not running: return] after it ends. *)
Inductive FetchEnd :=
| FetchOk (monitor_config : MonitorConfig)   (* [break], flag still set *)
| FetchExit (code : Z)                       (* [sys.exit(code)] *)
| FetchCancelled                             (* flag cleared: [return] *)
| FetchPending (retry_count : Z).            (* inputs used up, still looping *)

(** Lines 498-501: the end of a failed attempt. *)
Definition retry_wait (retry_count : Z) (sig : option SigPoint) : list Event :=
  (if 60 <? retry_count then [EvWarnStillWaiting retry_count] else [])
  ++ [EvSleep 5] ++ sig_events sig DuringSleep.

Fixpoint fetch_initial (running : bool) (retry_count : Z)
    (inputs : list FetchInput) : FetchEnd * list Event :=
  if running then
    match inputs with
    | [] => (FetchPending retry_count, [])
    | inp :: rest =>
        let request := EvGetConfig :: sig_events (fi_signal inp) DuringRequest in
        let retry :=
          let retry_count' := retry_count + 1 in
          let (e, tr) :=
            fetch_initial
              (deliver (fi_signal inp) [DuringRequest; DuringSleep] running)
              retry_count' rest in
          (e, request ++ retry_wait retry_count' (fi_signal inp) ++ tr) in
        match fi_resp inp with
        | HttpResponse status_code body =>
            if status_code =? 200 then
              (if deliver (fi_signal inp) [DuringRequest] running
               then FetchOk body else FetchCancelled,
               request)
            else if status_code =? 401 then (FetchExit 1, request)
            else retry
        | RequestException => retry
        end
    end
  else (FetchCancelled, []).

(** A response on which the initial pull retries: a transport failure, or
    a status that is neither 200 nor 401. *)
Definition retryable (resp : Response MonitorConfig) : Prop :=
  match resp with
  | HttpResponse status_code _ => status_code <> 200 /\ status_code <> 401
  | RequestException => True
  end.

(** A failed attempt during which no signal is delivered. *)
Definition quiet_retry (inp : FetchInput) : Prop :=
  retryable (fi_resp inp) /\ fi_signal inp = None.

(** The events of [n] failed attempts in a row, the first one made with
    the counter at [retry_count]. *)
Fixpoint retries (retry_count : Z) (n : nat) : list Event :=
  match n with
  | O => []
  | S n' =>
      EvGetConfig :: retry_wait (retry_count + 1) None
        ++ retries (retry_count + 1) n'
  end.

(** ** Step 4 of [main]: the report loop (lines 506-575) *)

(** What psutil and the clock return during one [collect_snapshot]
    followed by one [net_tracker.update]. *)
Record Probe := {
  counters_collect : gmap string Counters;
  addrs_collect : gmap string (list Addr);
  counters_update : gmap string Counters;
  now_update : Q
}.

Record TickInput := {
  ti_probe : Probe;
  ti_report : Response ReportData;
  ti_refresh : Response MonitorConfig;   (* read only if a refresh is made *)
  ti_signal : option SigPoint
}.

(** The variables of [main] that the report loop reads and writes. *)
Record MainState := {
  running : bool;
  monitor_config : MonitorConfig;
  interval : Z;
  known_config_version : Z;
  net_tracker : NetworkRateTracker
}.

(** [snapshot = collect_snapshot(monitor_config, ...);
     net_tracker.update(snapshot, monitor_config)] *)
Definition annotated_snapshot (config : MonitorConfig) (t : NetworkRateTracker)
    (p : Probe) : Snapshot * NetworkRateTracker :=
  update t (collect_snapshot config (counters_collect p) (addrs_collect p))
         config (counters_update p) (now_update p).

(** Lines 533-551.  [None] is [sys.exit(1)]; otherwise the new
    [known_config_version] and [need_config_refresh]. *)
Definition classify_report (known_config_version : Z) (resp : Response ReportData)
  : option (Z * bool) :=
  match resp with
  | HttpResponse status_code data =>
      if status_code =? 200 then
        let server_version := default 0 (configVersion data) in
        if known_config_version <? 0 then
          Some (server_version, false)
        else if negb (server_version =? known_config_version) then
          Some (server_version, true)
        else Some (known_config_version, false)
      else if status_code =? 401 then None
      else Some (known_config_version, false)
  | RequestException => Some (known_config_version, false)
  end.

(** Lines 555-571, after the [requests.get]: the new [monitor_config] and
    [interval].  [args_interval] is [args.interval]. *)
Definition refresh_config (args_interval : option Z) (monitor_config : MonitorConfig)
    (interval : Z) (resp : Response MonitorConfig) : MonitorConfig * Z :=
  match resp with
  | HttpResponse status_code new_config =>
      if status_code =? 200 then
        if bool_decide (new_config <> monitor_config) then
          let new_interval :=
            default DEFAULT_REPORT_INTERVAL (reportIntervalSec new_config) in
          (new_config,
           if bool_decide (args_interval = None) && negb (new_interval =? interval)
           then new_interval else interval)
        else (monitor_config, interval)
      else (monitor_config, interval)
  | RequestException => (monitor_config, interval)
  end.

Inductive TickEnd := TickContinue | TickExit (code : Z).

(** One iteration of the [while running] loop of step 4.  [time.sleep]
    raises [ValueError] when it is given a negative interval, and nothing
    catches it: an [EvSleep d] with [d < 0] marks that call, after which
    the source does not go on.  The tick below records the call and does
    not model the exception. *)
Definition report_tick (args_interval : option Z) (st : MainState) (inp : TickInput)
  : TickEnd * MainState * list Event :=
  let (snapshot, tracker) :=
    annotated_snapshot (monitor_config st) (net_tracker st) (ti_probe inp) in
  let post := EvPostReport snapshot :: sig_events (ti_signal inp) DuringRequest in
  match classify_report (known_config_version st) (ti_report inp) with
  | None =>
      (TickExit 1,
       {| running := deliver (ti_signal inp) [DuringRequest] (running st);
          monitor_config := monitor_config st;
          interval := interval st;
          known_config_version := known_config_version st;
          net_tracker := tracker |},
       post)
  | Some (known', need_config_refresh) =>
      let '(config', interval', refresh) :=
        if need_config_refresh then
          let (c, i) := refresh_config args_interval (monitor_config st)
                          (interval st) (ti_refresh inp) in
          (c, i, [EvGetConfig])
        else (monitor_config st, interval st, []) in
      (TickContinue,
       {| running := deliver (ti_signal inp) [DuringRequest; DuringSleep] (running st);
          monitor_config := config';
          interval := interval';
          known_config_version := known';
          net_tracker := tracker |},
       post ++ refresh ++ [EvSleep interval'] ++ sig_events (ti_signal inp) DuringSleep)
  end.

(** The three components of the result of a tick. *)
Definition tick_end (r : TickEnd * MainState * list Event) : TickEnd := r.1.1.
Definition tick_state (r : TickEnd * MainState * list Event) : MainState := r.1.2.
Definition tick_trace (r : TickEnd * MainState * list Event) : list Event := r.2.

(** [need_config_refresh] at the end of the response handling. *)
Definition refresh_needed (known : Z) (resp : Response ReportData) : Prop :=
  exists data, resp = HttpResponse 200 data /\ 0 <= known
               /\ default 0 (configVersion data) <> known.

(** The input of an iteration with the signal taken out. *)
Definition fetch_unsignalled (inp : FetchInput) : FetchInput :=
  {| fi_resp := fi_resp inp; fi_signal := None |}.

Definition tick_unsignalled (inp : TickInput) : TickInput :=
  {| ti_probe := ti_probe inp; ti_report := ti_report inp;
     ti_refresh := ti_refresh inp; ti_signal := None |}.

(** The version announced to a tick whose report is accepted (200). *)
Definition accepted_version (inp : TickInput) : option Z :=
  match ti_report inp with
  | HttpResponse status_code data =>
      if status_code =? 200 then Some (default 0 (configVersion data)) else None
  | RequestException => None
  end.

(** The version announced by the last accepted report of a run of ticks;
    [seen] when no report of the run is accepted. *)
Fixpoint last_accepted (seen : option Z) (ticks : list TickInput) : option Z :=
  match ticks with
  | [] => seen
  | inp :: rest =>
      last_accepted
        (match accepted_version inp with Some v => Some v | None => seen end) rest
  end.

(** The report of a tick does not announce a version other than [v]. *)
Definition reports_version (v : Z) (inp : TickInput) : Prop :=
  forall data, ti_report inp = HttpResponse 200 data ->
               default 0 (configVersion data) = v.

Inductive LoopEnd :=
| LoopStopped            (* flag cleared: "Exporter stopped.", [main] returns *)
| LoopExit (code : Z)    (* [sys.exit(code)] *)
| LoopPending.           (* inputs used up, still looping *)

Fixpoint report_loop (args_interval : option Z) (st : MainState)
    (inputs : list TickInput) : LoopEnd * MainState * list Event :=
  if running st then
    match inputs with
    | [] => (LoopPending, st, [])
    | inp :: rest =>
        match report_tick args_interval st inp with
        | (TickExit code, st', tr) => (LoopExit code, st', tr)
        | (TickContinue, st', tr) =>
            let '(e, st'', tr') := report_loop args_interval st' rest in
            (e, st'', tr ++ tr')
        end
    end
  else (LoopStopped, st, []).

(** Lines 506-519: the state in which the report loop is entered.
    [args.interval or monitor_config.get("reportIntervalSec", 5)], the
    tracker primed with one throwaway update, version not yet known. *)
Definition or_interval (args_interval : option Z) (config : MonitorConfig) : Z :=
  match args_interval with
  | Some i => if i =? 0 then default DEFAULT_REPORT_INTERVAL (reportIntervalSec config)
              else i
  | None => default DEFAULT_REPORT_INTERVAL (reportIntervalSec config)
  end.

Definition enter_report_loop (args_interval : option Z) (config : MonitorConfig)
    (prime : Probe) : MainState :=
  {| running := true;
     monitor_config := config;
     interval := or_interval args_interval config;
     known_config_version := -1;
     net_tracker := (annotated_snapshot config new_tracker prime).2 |}.

(** How steps 3 and 4 end.  An uncaught exception (the [ValueError] of
    [time.sleep] on a negative interval) is not among the outcomes. *)
Inductive MainEnd :=
| MainExit (code : Z)
| MainReturn
| MainPending.

(** Steps 3 and 4 of [main] in sequence. *)
Definition main_from_step3 (args_interval : option Z) (running0 : bool)
    (fetches : list FetchInput) (prime : Probe) (ticks : list TickInput)
  : MainEnd * list Event :=
  match fetch_initial running0 0 fetches with
  | (FetchOk config, tr) =>
      let '(e, _, tr') :=
        report_loop args_interval (enter_report_loop args_interval config prime) ticks in
      (match e with
       | LoopStopped => MainReturn
       | LoopExit code => MainExit code
       | LoopPending => MainPending
       end, tr ++ tr')
  | (FetchExit code, tr) => (MainExit code, tr)
  | (FetchCancelled, tr) => (MainReturn, tr)
  | (FetchPending _, tr) => (MainPending, tr)
  end.

(** Counting and erasing events. *)
Definition is_get (e : Event) : bool :=
  match e with EvGetConfig => true | _ => false end.
Definition is_post (e : Event) : bool :=
  match e with EvPostReport _ => true | _ => false end.
Definition is_sleep (e : Event) : bool :=
  match e with EvSleep _ => true | _ => false end.
Definition is_signal (e : Event) : bool :=
  match e with EvSignal => true | _ => false end.
Definition is_warning (e : Event) : bool :=
  match e with EvWarnStillWaiting _ => true | _ => false end.

Definition count (f : Event -> bool) (tr : list Event) : nat :=
  length (List.filter f tr).

Definition erase (f : Event -> bool) (tr : list Event) : list Event :=
  List.filter (fun e => negb (f e)) tr.

(** The events that follow the first delivery of the signal. *)
Fixpoint after_signal (tr : list Event) : list Event :=
  match tr with
  | [] => []
  | EvSignal :: rest => rest
  | _ :: rest => after_signal rest
  end.

(** ** Local state file (lines 346-356) *)

(** [local_cfg]: the keys [main] reads and writes. *)
Record LocalConfig := { token : option string; server : option string }.

(** The content of a file, as far as [json.load] can tell: the complete
    output of [json.dump(data, f, indent=2)] for some [data], or the empty
    file left by [open(path, "w")] before anything is written. *)
Inductive FileContent :=
| Truncated
| Document (data : LocalConfig).

Inductive LoadResult :=
| Loaded (cfg : LocalConfig)
| JSONDecodeError.

(** [load_local_config]: [{}] when the file does not exist. *)
Definition load_local_config (fs : gmap string FileContent) (path : string)
  : LoadResult :=
  match fs !! path with
  | Some (Document data) => Loaded data
  | Some Truncated => JSONDecodeError
  | None => Loaded {| token := None; server := None |}
  end.

(** [open(path, "w")]: creates the file or truncates it in place. *)
Definition open_w (path : string) (fs : gmap string FileContent)
  : gmap string FileContent :=
  <[path := Truncated]> fs.

(** [json.dump(data, f, indent=2)] and the close at the end of [with]. *)
Definition dump_close (path : string) (data : LocalConfig)
    (fs : gmap string FileContent) : gmap string FileContent :=
  <[path := Document data]> fs.

(** [save_local_config]: the successive states of the file system. *)
Definition save_states (path : string) (data : LocalConfig)
    (fs : gmap string FileContent) : list (gmap string FileContent) :=
  let fs1 := open_w path fs in
  [fs1; dump_close path data fs1].

Definition save_local_config (path : string) (data : LocalConfig)
    (fs : gmap string FileContent) : gmap string FileContent :=
  dump_close path data (open_w path fs).

(** ** Hardware discovery and the rest of [collect_snapshot] *)

(** [round(b / (1024**3), 1)] and [round(b / (1024**2))]. *)
Definition bytes_to_GB (b : Z) : Q := Num.round1 (inject_Z b / inject_Z (1024 ^ 3)).
Definition bytes_to_MB (b : Z) : Z :=
  Num.round_half_even (inject_Z b / inject_Z (1024 ^ 2)).

(** An entry of [psutil.disk_partitions(all=False)]. *)
Record Partition := { mountpoint : string; fstype : string }.

(** The fields of [psutil.disk_usage(mountpoint)] that are read.  In the
    map of usages a missing mount point stands for [PermissionError]. *)
Record DiskUsage := { du_total : Z; du_used : Z }.

(** [part.fstype in ("squashfs", "tmpfs", "devtmpfs", "overlay")] *)
Definition pseudo_fs (fs_type : string) : bool :=
  bool_decide (fs_type ∈ ["squashfs"; "tmpfs"; "devtmpfs"; "overlay"]%string).

(** What NVML answers for one device index.  [None] in a field is an
    [NVMLError] of the query of that field, which the source catches.
    The queries that are not guarded one by one (handle, name, memory,
    and in [collect_snapshot] also utilisation) are not fields of their
    own: in the device lists below a device for which one of them raises
    is the entry [None].  The two functions make different queries at
    different times, so each is given its own list: a device that fails
    the utilisation query only is [None] for [collect_snapshot] and
    present for [discover_hardware]. *)
Record GpuDevice := {
  dev_name : string;
  dev_util : Z;                  (* nvmlDeviceGetUtilizationRates(handle).gpu *)
  dev_mem_used : Z;              (* bytes *)
  dev_mem_total : Z;             (* bytes *)
  dev_temp : option Z;
  dev_power_draw : option Z;     (* milliwatts *)
  dev_power_limit : option Z     (* milliwatts *)
}.

(** The capabilities dict of [discover_hardware] (lines 57-129). *)
Module Caps.

Record Gpu := { index : Z; gpu_name : string (* key "name" *); memoryTotalMB : Z }.
Record Disk := { mount : string; totalGB : Q }.
Record Nic := { name : string; ipv4 : string }.

End Caps.

(** Elements of [snapshot["gpus"]] and [snapshot["disks"]]. *)
Record Gpu := {
  index : Z;
  gpu_name : string;             (* key "name" *)
  utilizationPct : Z;
  memoryUsedMB : Z;
  memoryTotalMB : Z;
  temperatureC : Z;
  powerDrawW : Z;
  powerLimitW : Z
}.

Record Disk := { mount : string; totalGB : Q; usedGB : Q }.

(** Lines 96-112: the disks of the capabilities. *)
Fixpoint discover_disks (usage : gmap string DiskUsage) (parts : list Partition)
  : list Caps.Disk :=
  match parts with
  | [] => []
  | part :: rest =>
      if pseudo_fs (fstype part) then discover_disks usage rest
      else
        match usage !! mountpoint part with
        | Some u =>
            {| Caps.mount := mountpoint part;
               Caps.totalGB := bytes_to_GB (du_total u) |}
            :: discover_disks usage rest
        | None => discover_disks usage rest           (* PermissionError *)
        end
  end.

(** [disk_mounts is not None and part.mountpoint not in disk_mounts] *)
Definition mount_filtered_out (disk_mounts : option (list string)) (m : string)
  : bool :=
  match disk_mounts with
  | Some l => negb (bool_decide (m ∈ l))
  | None => false
  end.

(** Lines 229-247: the disks of a snapshot. *)
Fixpoint collect_disks (disk_mounts : option (list string))
    (usage : gmap string DiskUsage) (parts : list Partition) : list Disk :=
  match parts with
  | [] => []
  | part :: rest =>
      if pseudo_fs (fstype part) then collect_disks disk_mounts usage rest
      else if mount_filtered_out disk_mounts (mountpoint part) then
        collect_disks disk_mounts usage rest
      else
        match usage !! mountpoint part with
        | Some u =>
            {| mount := mountpoint part;
               totalGB := bytes_to_GB (du_total u);
               usedGB := bytes_to_GB (du_used u) |}
            :: collect_disks disk_mounts usage rest
        | None => collect_disks disk_mounts usage rest (* PermissionError *)
        end
  end.

(** Lines 114-127: the NICs of the capabilities, from the items of
    [psutil.net_if_addrs()]. *)
Fixpoint discover_nics (items : list (string * list Addr)) : list Caps.Nic :=
  match items with
  | [] => []
  | (nic_name, addr_list) :: rest =>
      if bool_decide (nic_name = "lo"%string) then discover_nics rest
      else
        let ipv4 := first_ipv4 addr_list in
        if bool_decide (ipv4 <> EmptyString) then
          {| Caps.name := nic_name; Caps.ipv4 := ipv4 |} :: discover_nics rest
        else discover_nics rest
  end.

(** [gpu_indices is not None and i not in gpu_indices] *)
Definition gpu_filtered_out (gpu_indices : option (list Z)) (i : Z) : bool :=
  match gpu_indices with
  | Some l => negb (bool_decide (i ∈ l))
  | None => false
  end.

(** [round(power / 1000)] of a reading in milliwatts; 0 on [NVMLError]. *)
Definition watts (milliwatts : option Z) : Z :=
  match milliwatts with
  | Some mw => Num.round_half_even (inject_Z mw / 1000)
  | None => 0
  end.

(** Lines 186-220: the dict appended for device [i]. *)
Definition gpu_entry (i : Z) (dev : GpuDevice) : Gpu :=
  {| index := i;
     gpu_name := dev_name dev;
     utilizationPct := dev_util dev;
     memoryUsedMB := bytes_to_MB (dev_mem_used dev);
     memoryTotalMB := bytes_to_MB (dev_mem_total dev);
     temperatureC := default 0 (dev_temp dev);
     powerDrawW := watts (dev_power_draw dev);
     powerLimitW := watts (dev_power_limit dev) |}.

(** The [for i in range(count)] loop of [collect_snapshot] from index [i]
    on.  A device that is [None] raises [NVMLError] when it is queried:
    the loop is left and what was appended so far is kept. *)
Fixpoint collect_gpus_from (gpu_indices : option (list Z)) (i : Z)
    (devices : list (option GpuDevice)) : list Gpu :=
  match devices with
  | [] => []
  | d :: rest =>
      if gpu_filtered_out gpu_indices i then
        collect_gpus_from gpu_indices (i + 1) rest
      else
        match d with
        | Some dev => gpu_entry i dev :: collect_gpus_from gpu_indices (i + 1) rest
        | None => []
        end
  end.

(** Lines 176-227.  [nvml] is [None] when [nvmlInit] or
    [nvmlDeviceGetCount] raises. *)
Definition collect_gpus (HAS_NVML skip_gpu : bool)
    (nvml : option (list (option GpuDevice))) (gpu_indices : option (list Z))
  : list Gpu :=
  if HAS_NVML && negb skip_gpu then
    match nvml with
    | Some devices => collect_gpus_from gpu_indices 0 devices
    | None => []
    end
  else [].

(** Lines 69-94: the GPUs of the capabilities. *)
Fixpoint discover_gpus_from (i : Z) (devices : list (option GpuDevice))
  : list Caps.Gpu :=
  match devices with
  | [] => []
  | Some dev :: rest =>
      {| Caps.index := i; Caps.gpu_name := dev_name dev;
         Caps.memoryTotalMB := bytes_to_MB (dev_mem_total dev) |}
      :: discover_gpus_from (i + 1) rest
  | None :: _ => []
  end.

Definition discover_gpus (HAS_NVML skip_gpu : bool)
    (nvml : option (list (option GpuDevice))) : list Caps.Gpu :=
  if HAS_NVML && negb skip_gpu then
    match nvml with
    | Some devices => discover_gpus_from 0 devices
    | None => []
    end
  else [].

(** Lines 158-160 and 65-66: the memory figures of a snapshot, from
    [mem.total] and [mem.available]. *)
Definition memory_used_GB (mem_total mem_available : Z) : Q :=
  bytes_to_GB (mem_total - mem_available).
Definition memory_total_GB (mem_total : Z) : Q := bytes_to_GB mem_total.

(** The capability entry that corresponds to a snapshot entry. *)
Definition disk_spec (d : Disk) : Caps.Disk :=
  {| Caps.mount := mount d; Caps.totalGB := totalGB d |}.

Definition gpu_spec (g : Gpu) : Caps.Gpu :=
  {| Caps.index := index g; Caps.gpu_name := gpu_name g;
     Caps.memoryTotalMB := memoryTotalMB g |}.

(** The answers of one device to [discover_hardware] ([d]) and to
    [collect_snapshot] ([c]) agree: a device that answers all the queries
    of [collect_snapshot] answers those of [discover_hardware], with the
    same name and the same total memory.  A device that fails a query of
    [collect_snapshot] is free to answer [discover_hardware] or not. *)
Definition answers_agree (d c : option GpuDevice) : Prop :=
  match c with
  | Some dev =>
      exists dev', d = Some dev'
                   /\ dev_name dev' = dev_name dev
                   /\ dev_mem_total dev' = dev_mem_total dev
  | None => True
  end.

(** ** Step 2 of [main]: registration (lines 421-468) *)

(** Body of a registration response: [data["token"]], [data.get("status")]. *)
Record RegisterData := { reg_token : option string; reg_status : option string }.

Inductive RegisterEnd :=
| RegContinue (token : string) (fs : gmap string FileContent)
    (requested : bool)                 (* on to step 3 *)
| RegExit (code : Z)                   (* [sys.exit(code)] *)
| RegKeyError                          (* [data["token"]] on a body without it *)
| RegDecodeError.                      (* [json.load] of a broken state file *)

(** [not token], for [token = local_cfg.get("token")]. *)
Definition no_token (local_cfg : LocalConfig) : bool :=
  match token local_cfg with
  | None => true
  | Some t => bool_decide (t = EmptyString)
  end.

(** Lines 438-468, given the loaded [local_cfg].  The body of the
    response is taken to decode ([resp.json()] is called for every
    status); [local_cfg] is written back with its two keys. *)
Definition register (config_path server_url : string) (local_cfg : LocalConfig)
    (resp : Response RegisterData) (fs : gmap string FileContent) : RegisterEnd :=
  if no_token local_cfg then
    match resp with
    | HttpResponse status_code data =>
        if status_code =? 200 then
          match reg_token data with
          | Some t =>
              RegContinue t
                (save_local_config config_path
                   {| token := Some t; server := Some server_url |} fs)
                true
          | None => RegKeyError
          end
        else if status_code =? 409 then RegExit 1
        else RegExit 1
    | RequestException => RegExit 1
    end
  else RegContinue (default EmptyString (token local_cfg)) fs false.

(** Lines 421-468: load the local state, then register if needed. *)
Definition load_and_register (config_path server_url : string)
    (resp : Response RegisterData) (fs : gmap string FileContent) : RegisterEnd :=
  match load_local_config fs config_path with
  | Loaded local_cfg => register config_path server_url local_cfg resp fs
  | JSONDecodeError => RegDecodeError
  end.

(** A strictly increasing list of integers. *)
Fixpoint increasing_from (lo : Z) (l : list Z) : Prop :=
  match l with
  | [] => True
  | x :: rest => lo <= x /\ increasing_from (x + 1) rest
  end.

(** ** Sample data used to exercise the statements below *)

Module Sample.

Definition eth0 : string := "eth0".

(** Counters seen by [collect_snapshot] and, a little later, by [update]. *)
Definition counters_t0 : gmap string Counters :=
  {[ eth0 := {| bytes_sent := 5000000; bytes_recv := 1000000 |};
     "lo"%string := {| bytes_sent := 77; bytes_recv := 77 |} ]}.

(** Two seconds later: 2.5 MB received, and the sent counter was reset. *)
Definition counters_t2 : gmap string Counters :=
  {[ eth0 := {| bytes_sent := 4000; bytes_recv := 3500000 |};
     "lo"%string := {| bytes_sent := 99; bytes_recv := 99 |} ]}.

Definition addrs : gmap string (list Addr) :=
  {[ eth0 := [ {| family := AF_OTHER; address := "fe80::1" |};
               {| family := AF_INET; address := "10.0.0.5" |} ] ]}.

Definition primed : NetworkRateTracker :=
  {| _prev := {[ eth0 := {| rx := 1000000; tx := 5000000 |} ]};
     _prev_time := 100;
     _initialized := true |}.

Definition snapshot0 : Snapshot := collect_snapshot empty_config counters_t0 addrs.

Definition probe (t : Q) : Probe :=
  {| counters_collect := counters_t0; addrs_collect := addrs;
     counters_update := counters_t2; now_update := t |}.

Definition config10 : MonitorConfig :=
  {| reportIntervalSec := Some 10; gpuIndices := None;
     diskMounts := None; nicNames := None |}.

Definition config30 : MonitorConfig :=
  {| reportIntervalSec := Some 30; gpuIndices := None;
     diskMounts := None; nicNames := Some [eth0] |}.

(** A tick whose report is accepted with [configVersion = v]; the config
    endpoint answers [refresh] if it is asked. *)
Definition ok_tick (v : Z) (refresh : Response MonitorConfig) : TickInput :=
  {| ti_probe := probe 105;
     ti_report := HttpResponse 200 {| configVersion := Some v |};
     ti_refresh := refresh;
     ti_signal := None |}.

(** The state in which the report loop starts after [config10] was pulled. *)
Definition entered : MainState := enter_report_loop None config10 (probe 100).

(** The same state after a first report recorded version 1. *)
Definition recorded1 : MainState :=
  tick_state (report_tick None entered (ok_tick 1 RequestException)).

(** Attempts of the initial pull. *)
Definition timeout_attempt (sig : option SigPoint) : FetchInput :=
  {| fi_resp := RequestException; fi_signal := sig |}.

Definition status_attempt (code : Z) : FetchInput :=
  {| fi_resp := HttpResponse code empty_config; fi_signal := None |}.

Definition ok_attempt : FetchInput :=
  {| fi_resp := HttpResponse 200 config10; fi_signal := None |}.

(** A tick during whose report request the signal is delivered. *)
Definition signalled_tick (v : Z) (refresh : Response MonitorConfig) : TickInput :=
  {| ti_probe := probe 105;
     ti_report := HttpResponse 200 {| configVersion := Some v |};
     ti_refresh := refresh;
     ti_signal := Some DuringRequest |}.

(** Local state. *)
Definition config_path : string := "config.json".

Definition old_state : LocalConfig :=
  {| token := Some "old"%string; server := Some "https://x"%string |}.

Definition new_state : LocalConfig :=
  {| token := Some "abc"%string; server := Some "https://x"%string |}.

Definition disk : gmap string FileContent :=
  {[ config_path := Document old_state ]}.

(** Five seconds after [probe 100]: 2.5 MB more received and 1.25 MB
    more sent than in [counters_t2]. *)
Definition counters_t7 : gmap string Counters :=
  {[ eth0 := {| bytes_sent := 1254000; bytes_recv := 6000000 |};
     "lo"%string := {| bytes_sent := 120; bytes_recv := 120 |} ]}.

Definition first_tick : TickInput :=
  {| ti_probe := {| counters_collect := counters_t7; addrs_collect := addrs;
                    counters_update := counters_t7; now_update := 105 |};
     ti_report := HttpResponse 200 {| configVersion := Some 1 |};
     ti_refresh := RequestException;
     ti_signal := None |}.

(** Disks, NIC addresses and GPUs of a sample machine. *)
Definition partitions : list Partition :=
  [ {| mountpoint := "/"; fstype := "ext4" |};
    {| mountpoint := "/snap/core"; fstype := "squashfs" |};
    {| mountpoint := "/root"; fstype := "ext4" |};
    {| mountpoint := "/data"; fstype := "xfs" |} ].

(** No entry for [/root]: reading its usage raises [PermissionError]. *)
Definition usages : gmap string DiskUsage :=
  {[ "/"%string := {| du_total := 107374182400; du_used := 53687091200 |};
     "/snap/core"%string := {| du_total := 1000; du_used := 1000 |};
     "/data"%string := {| du_total := 2147483648; du_used := 0 |} ]}.

Definition gpu0 : GpuDevice :=
  {| dev_name := "A100"; dev_util := 37;
     dev_mem_used := 1073741824; dev_mem_total := 85899345920;
     dev_temp := None; dev_power_draw := Some 250500;
     dev_power_limit := Some 400000 |}.

Definition gpu1 : GpuDevice :=
  {| dev_name := "A100"; dev_util := 0;
     dev_mem_used := 0; dev_mem_total := 85899345920;
     dev_temp := Some 30; dev_power_draw := None;
     dev_power_limit := None |}.

End Sample.

Example round1_ex1 : Num.round1 (123 # 100) = (12 # 10)%Q.
Proof. reflexivity. Qed.
Example round1_ex2 : Num.round1 (25 # 100) = (2 # 10)%Q.
Proof. reflexivity. Qed.
Example round1_ex3 : Num.round1 (35 # 100) = (4 # 10)%Q.
Proof. reflexivity. Qed.
Example round1_ex4 : Num.round1 (-(26 # 100)) = (-3 # 10)%Q.
Proof. reflexivity. Qed.

(** ** Rounding *)

Section Rounding.
Local Open Scope Q_scope.

Lemma Qcompare_Lt_iff (a b : Q) : (a ?= b) = Lt <-> a < b.
Proof. symmetry. apply Qlt_alt. Qed.

Lemma Qcompare_Gt_iff (a b : Q) : (a ?= b) = Gt <-> b < a.
Proof. symmetry. apply Qgt_alt. Qed.

Lemma Qcompare_Eq_iff (a b : Q) : (a ?= b) = Eq <-> a == b.
Proof. symmetry. apply Qeq_alt. Qed.

Lemma Qlt_bool_iff (a b : Q) : Qlt_bool a b = true <-> a < b.
Proof.
  unfold Qlt_bool. pose proof (Qcompare_Lt_iff a b) as H.
  destruct (a ?= b); split; intros H'; try discriminate;
    try reflexivity; try (apply H in H'; discriminate).
  apply H. reflexivity.
Qed.

Lemma Qlt_bool_false_iff (a b : Q) : Qlt_bool a b = false <-> b <= a.
Proof.
  destruct (Qlt_bool a b) eqn:E.
  - apply Qlt_bool_iff in E. split; [discriminate | intros H; lra].
  - split; [intros _ | reflexivity].
    apply Qnot_lt_le. intros H. apply Qlt_bool_iff in H. congruence.
Qed.

Ltac abstract_floor x :=
  rewrite ?inject_Z_plus; change (inject_Z 1) with 1;
  generalize dependent (inject_Z (Qfloor x)); intros.

Lemma round_half_even_error (x : Q) :
  Qabs (inject_Z (Num.round_half_even x) - x) <= 1 # 2.
Proof.
  pose proof (Qfloor_le x) as Hl. pose proof (Qlt_floor x) as Hu.
  rewrite inject_Z_plus in Hu. change (inject_Z 1) with 1 in Hu.
  unfold Num.round_half_even.
  destruct (x - inject_Z (Qfloor x) ?= 1 # 2) eqn:Hc.
  - apply (proj1 (Qcompare_Eq_iff _ _)) in Hc.
    destruct (Z.even (Qfloor x)); apply Qabs_Qle_condition;
      abstract_floor x; split; lra.
  - apply (proj1 (Qcompare_Lt_iff _ _)) in Hc. apply Qabs_Qle_condition.
    abstract_floor x; split; lra.
  - apply (proj1 (Qcompare_Gt_iff _ _)) in Hc. apply Qabs_Qle_condition.
    abstract_floor x; split; lra.
Qed.

Lemma round_half_even_comp (x y : Q) :
  x == y -> Num.round_half_even x = Num.round_half_even y.
Proof.
  intros H. unfold Num.round_half_even.
  rewrite (Qfloor_comp _ _ H).
  assert (Hc : (x - inject_Z (Qfloor y) ?= 1 # 2) = (y - inject_Z (Qfloor y) ?= 1 # 2)).
  { apply Qcompare_comp; [rewrite H|]; reflexivity. }
  rewrite Hc. reflexivity.
Qed.

Lemma round_half_even_Z (z : Z) : Num.round_half_even (inject_Z z) = z.
Proof.
  unfold Num.round_half_even. rewrite Qfloor_Z.
  assert (Hc : (inject_Z z - inject_Z z ?= 1 # 2) = Lt).
  { apply (proj2 (Qcompare_Lt_iff _ _)). lra. }
  rewrite Hc. reflexivity.
Qed.

Lemma round_half_even_nonneg (x : Q) : 0 <= x -> (0 <= Num.round_half_even x)%Z.
Proof.
  intros H. unfold Num.round_half_even.
  assert (Hf : (0 <= Qfloor x)%Z).
  { change 0%Z with (Qfloor 0). apply Qfloor_resp_le. exact H. }
  destruct (_ ?= _); [destruct (Z.even _)| |]; lia.
Qed.

Lemma Qmake10 (z : Z) : z # 10 == inject_Z z * (1 # 10).
Proof. unfold Qeq, Qmult, inject_Z. simpl. lia. Qed.

Lemma round1_error (x : Q) : Qabs (Num.round1 x - x) <= 1 # 20.
Proof.
  pose proof (round_half_even_error (x * 10)) as H.
  apply Qabs_Qle_condition in H. destruct H as [H1 H2].
  unfold Num.round1. rewrite Qmake10.
  generalize dependent (inject_Z (Num.round_half_even (x * 10))). intros r H1 H2.
  apply Qabs_Qle_condition. split; lra.
Qed.

Lemma round1_comp (x y : Q) : x == y -> Num.round1 x = Num.round1 y.
Proof.
  intros H. unfold Num.round1. f_equal.
  apply round_half_even_comp. rewrite H. reflexivity.
Qed.

Lemma round1_nonneg (x : Q) : 0 <= x -> 0 <= Num.round1 x.
Proof.
  intros H. unfold Num.round1.
  assert (Hz : (0 <= Num.round_half_even (x * 10))%Z).
  { apply round_half_even_nonneg. lra. }
  unfold Qle. simpl. lia.
Qed.

Lemma round1_tenth (x : Q) : Num.tenth_valued x -> Num.round1 x == x.
Proof.
  intros [z Hz]. unfold Num.round1.
  assert (H10 : x * 10 == inject_Z z).
  { rewrite Hz, (Qmake10 z). ring. }
  rewrite (round_half_even_comp _ _ H10), round_half_even_Z.
  symmetry. exact Hz.
Qed.

Lemma round1_is_tenth (x : Q) : Num.tenth_valued (Num.round1 x).
Proof. exists (Num.round_half_even (x * 10)). reflexivity. Qed.

Lemma tenth_valued_0 : Num.tenth_valued 0.
Proof. exists 0%Z. reflexivity. Qed.

Lemma tenth_valued_plus (x y : Q) :
  Num.tenth_valued x -> Num.tenth_valued y -> Num.tenth_valued (x + y).
Proof.
  intros [a Ha] [b Hb]. exists (a + b)%Z.
  rewrite Ha, Hb, (Qmake10 a), (Qmake10 b), (Qmake10 (a + b)), inject_Z_plus.
  ring.
Qed.

Lemma tenth_valued_comp (x y : Q) :
  x == y -> Num.tenth_valued x -> Num.tenth_valued y.
Proof. intros H [a Ha]. exists a. rewrite <- H. exact Ha. Qed.

Lemma py_max_0 (x : Q) : Num.py_max x 0 == Qmax 0 x.
Proof.
  unfold Num.py_max.
  destruct (x ?= 0) eqn:Hc.
  - apply (proj1 (Qcompare_Eq_iff _ _)) in Hc. rewrite Q.max_r; [reflexivity | lra].
  - apply (proj1 (Qcompare_Lt_iff _ _)) in Hc. rewrite Q.max_l; [reflexivity | lra].
  - apply (proj1 (Qcompare_Gt_iff _ _)) in Hc. rewrite Q.max_r; [reflexivity | lra].
Qed.

Lemma py_max_0_nonneg (x : Q) : 0 <= Num.py_max x 0.
Proof. rewrite py_max_0. apply Q.le_max_l. Qed.

Lemma py_max_0_neg (x : Q) : x <= 0 -> Num.py_max x 0 == 0.
Proof. intros H. rewrite py_max_0. apply Q.max_l. exact H. Qed.

End Rounding.

(** ** The loop of [NetworkRateTracker.update] *)

Section UpdateLoop.
Local Open Scope Q_scope.

Variable net_counters : gmap string Counters.
Variable dt : Q.

Lemma update_nic_name (acc : Acc) (nic : Nic) :
  name (update_nic net_counters dt acc nic).1 = name nic.
Proof.
  unfold update_nic. destruct (net_counters !! name nic); [|reflexivity].
  simpl. destruct (Qlt_bool 0 dt), (acc_prev acc !! name nic); reflexivity.
Qed.

(** The annotated NIC depends on the loop state only through the entry
    of [_prev] under its own name. *)
Lemma update_nic_fst_ext (acc1 acc2 : Acc) (nic : Nic) :
  acc_prev acc1 !! name nic = acc_prev acc2 !! name nic ->
  (update_nic net_counters dt acc1 nic).1 = (update_nic net_counters dt acc2 nic).1.
Proof.
  intros H. unfold update_nic.
  destruct (net_counters !! name nic); [|reflexivity].
  simpl. rewrite H. reflexivity.
Qed.

Lemma update_nic_prev_other (acc : Acc) (nic : Nic) (n : string) :
  n <> name nic ->
  acc_prev (update_nic net_counters dt acc nic).2 !! n = acc_prev acc !! n.
Proof.
  intros Hn. unfold update_nic.
  destruct (net_counters !! name nic); [|reflexivity].
  simpl. apply lookup_insert_ne. congruence.
Qed.

Lemma update_nic_prev_same (acc : Acc) (nic : Nic) :
  acc_prev (update_nic net_counters dt acc nic).2 !! name nic =
  match net_counters !! name nic with
  | Some c => Some {| rx := bytes_recv c; tx := bytes_sent c |}
  | None => acc_prev acc !! name nic
  end.
Proof.
  unfold update_nic.
  destruct (net_counters !! name nic); [|reflexivity].
  simpl. apply lookup_insert_eq.
Qed.

Lemma update_loop_cons (acc : Acc) (nic : Nic) (l : list Nic) :
  update_loop net_counters dt acc (nic :: l) =
  ((update_nic net_counters dt acc nic).1
     :: (update_loop net_counters dt (update_nic net_counters dt acc nic).2 l).1,
   (update_loop net_counters dt (update_nic net_counters dt acc nic).2 l).2).
Proof.
  simpl. destruct (update_nic net_counters dt acc nic) as [nic' acc'].
  simpl. destruct (update_loop net_counters dt acc' l). reflexivity.
Qed.

Lemma update_loop_names (l : list Nic) (acc : Acc) :
  name <$> (update_loop net_counters dt acc l).1 = name <$> l.
Proof.
  revert acc. induction l as [|nic l IH]; intros acc; [reflexivity|].
  rewrite update_loop_cons. simpl. rewrite update_nic_name, IH. reflexivity.
Qed.

Lemma update_loop_length (l : list Nic) (acc : Acc) :
  length (update_loop net_counters dt acc l).1 = length l.
Proof.
  rewrite <- (length_fmap name), update_loop_names, length_fmap. reflexivity.
Qed.

(** The NIC at position [i] of the result, when its name did not occur
    before position [i]: the loop body applied in the initial state. *)
Lemma update_loop_lookup (l : list Nic) (acc : Acc) (i : nat) (nic : Nic) :
  l !! i = Some nic ->
  name nic ∉ name <$> take i l ->
  (update_loop net_counters dt acc l).1 !! i
  = Some (update_nic net_counters dt acc nic).1.
Proof.
  revert acc i. induction l as [|nic0 l IH]; intros acc i Hi Hfresh; [done|].
  rewrite update_loop_cons. destruct i as [|i]; simpl in *.
  - congruence.
  - rewrite not_elem_of_cons in Hfresh. destruct Hfresh as [Hne Hfresh].
    rewrite (IH _ i Hi Hfresh).
    f_equal. apply update_nic_fst_ext, update_nic_prev_other. exact Hne.
Qed.

(** The final [_prev]: the current counters under every name of the list
    that has counters, the old entry elsewhere. *)
Lemma update_loop_prev (l : list Nic) (acc : Acc) (n : string) :
  acc_prev (update_loop net_counters dt acc l).2 !! n =
  match net_counters !! n with
  | Some c =>
      if bool_decide (n ∈ name <$> l)
      then Some {| rx := bytes_recv c; tx := bytes_sent c |}
      else acc_prev acc !! n
  | None => acc_prev acc !! n
  end.
Proof.
  revert acc. induction l as [|nic l IH]; intros acc.
  - simpl. destruct (net_counters !! n); reflexivity.
  - rewrite update_loop_cons. cbn [snd]. rewrite IH, fmap_cons.
    destruct (decide (n = name nic)) as [->|Hne].
    + rewrite update_nic_prev_same.
      destruct (net_counters !! name nic); [|reflexivity].
      rewrite (bool_decide_eq_true_2 (name nic ∈ name nic :: (name <$> l)));
        [|left].
      destruct (bool_decide _); reflexivity.
    + rewrite update_nic_prev_other by done.
      destruct (net_counters !! n); [|reflexivity].
      rewrite (bool_decide_ext (n ∈ name nic :: (name <$> l)) (n ∈ name <$> l));
        [reflexivity|].
      rewrite elem_of_cons. tauto.
Qed.

(** Every rate written by the loop is non-negative and has one decimal
    digit. *)

Lemma rate_ok_0 : rate_ok 0.
Proof. split; [lra | apply tenth_valued_0]. Qed.

Lemma rate_ok_round1_max (x : Q) : rate_ok (Num.round1 (Num.py_max x 0)).
Proof.
  split; [apply round1_nonneg, py_max_0_nonneg | apply round1_is_tenth].
Qed.

Lemma update_nic_rates (acc : Acc) (nic : Nic) :
  net_counters !! name nic = None /\ update_nic net_counters dt acc nic = (nic, acc)
  \/ (exists nic', update_nic net_counters dt acc nic =
        (nic', {| acc_prev := acc_prev (update_nic net_counters dt acc nic).2;
                  total_rx := total_rx acc + rxMbps nic';
                  total_tx := total_tx acc + txMbps nic' |})
        /\ rate_ok (rxMbps nic') /\ rate_ok (txMbps nic')).
Proof.
  unfold update_nic. destruct (net_counters !! name nic) as [c|]; [right|left; done].
  eexists. split; [reflexivity|].
  destruct (Qlt_bool 0 dt), (acc_prev acc !! name nic); simpl;
    auto using rate_ok_0, rate_ok_round1_max.
Qed.

(** Loop invariant for the totals: what was added to [total_rx] is the
    sum of the rates in the resulting list, provided the NICs skipped by
    [continue] carry the placeholder 0. *)
Lemma update_loop_totals (l : list Nic) (acc : Acc) :
  Forall (fun nic => net_counters !! name nic = None ->
                     rxMbps nic == 0 /\ txMbps nic == 0) l ->
  let r := update_loop net_counters dt acc l in
  total_rx r.2 == total_rx acc + sum_rates rxMbps r.1 /\
  total_tx r.2 == total_tx acc + sum_rates txMbps r.1 /\
  (Num.tenth_valued (total_rx acc) -> Num.tenth_valued (total_rx r.2)) /\
  (Num.tenth_valued (total_tx acc) -> Num.tenth_valued (total_tx r.2)) /\
  Forall (fun nic => 0 <= rxMbps nic /\ 0 <= txMbps nic) r.1.
Proof.
  intros Hl. revert acc. induction Hl as [|nic l Hnic Hl IH]; intros acc.
  - simpl. repeat split; auto; lra.
  - cbv zeta. rewrite update_loop_cons. simpl.
    destruct (update_nic_rates acc nic) as [[Hnone E]|(nic' & E & [Hrx Trx] & [Htx Ttx])];
      rewrite E; simpl;
      destruct (IH (update_nic net_counters dt acc nic).2) as (I1 & I2 & I3 & I4 & I5);
      rewrite E in I1, I2, I3, I4, I5; simpl in *.
    + destruct (Hnic Hnone) as [Z1 Z2].
      repeat split; auto.
      * rewrite I1, Z1. ring.
      * rewrite I2, Z2. ring.
      * constructor; [rewrite Z1, Z2; split; lra | exact I5].
    + repeat split.
      * rewrite I1. ring.
      * rewrite I2. ring.
      * intros T. apply I3, tenth_valued_plus; assumption.
      * intros T. apply I4, tenth_valued_plus; assumption.
      * constructor; [split; assumption | exact I5].
Qed.

End UpdateLoop.

(** ** What [collect_snapshot] hands to the tracker *)

Section Collect.

Variable nic_names_cfg : option (list string).
Variable nic_addrs : gmap string (list Addr).

Lemma collect_nics_placeholder (items : list (string * Counters)) :
  Forall (fun nic => rxMbps nic = 0%Q /\ txMbps nic = 0%Q)
         (collect_nics nic_names_cfg nic_addrs items).
Proof.
  induction items as [|[n c] items IH]; simpl; [constructor|].
  destruct (bool_decide (n = "lo"%string)); [exact IH|].
  destruct (filtered_out nic_names_cfg n); [exact IH|].
  constructor; [split; reflexivity | exact IH].
Qed.

Lemma collect_nics_names (items : list (string * Counters)) (n : string) :
  n ∈ name <$> collect_nics nic_names_cfg nic_addrs items -> n ∈ items.*1.
Proof.
  induction items as [|[n0 c] items IH]; simpl; [done|].
  destruct (bool_decide (n0 = "lo"%string)); [intros H; right; auto|].
  destruct (filtered_out nic_names_cfg n0); [intros H; right; auto|].
  rewrite fmap_cons. simpl. intros [->|H]%elem_of_cons; [left | right; auto].
Qed.

Lemma collect_nics_NoDup (items : list (string * Counters)) :
  NoDup items.*1 -> NoDup (name <$> collect_nics nic_names_cfg nic_addrs items).
Proof.
  induction items as [|[n0 c] items IH]; simpl; [constructor|].
  intros [Hn Hnd]%NoDup_cons.
  destruct (bool_decide (n0 = "lo"%string)); [auto|].
  destruct (filtered_out nic_names_cfg n0); [auto|].
  rewrite fmap_cons. simpl. apply NoDup_cons. split; [|auto].
  intros H. apply Hn, collect_nics_names, H.
Qed.

End Collect.

Lemma collect_snapshot_NoDup (config : MonitorConfig)
    (net_counters : gmap string Counters) (nic_addrs : gmap string (list Addr)) :
  NoDup (name <$> nics (collect_snapshot config net_counters nic_addrs)).
Proof. apply collect_nics_NoDup, NoDup_fst_map_to_list. Qed.

Lemma NoDup_lookup_fresh {A B : Type} (f : A -> B) (l : list A) (i : nat) (x : A) :
  NoDup (f <$> l) -> l !! i = Some x -> f x ∉ f <$> take i l.
Proof.
  intros Hnd Hi. rewrite <- (take_drop_middle l i x Hi), fmap_app in Hnd.
  apply NoDup_app in Hnd as (_ & Hdisj & _).
  intros Hin. apply (Hdisj _ Hin). rewrite fmap_cons. left.
Qed.

(** ** [NetworkRateTracker.update] *)

Section Update.
Local Open Scope Q_scope.

Lemma update_unfold (t : NetworkRateTracker) (s : Snapshot) (config : MonitorConfig)
    (net_counters : gmap string Counters) (now : Q) :
  let r := update_loop net_counters (elapsed t now)
             {| acc_prev := _prev t; total_rx := 0; total_tx := 0 |} (nics s) in
  update t s config net_counters now =
  ({| nics := r.1;
      networkRxMbps := Num.round1 (total_rx r.2);
      networkTxMbps := Num.round1 (total_tx r.2) |},
   {| _prev := acc_prev r.2; _prev_time := now; _initialized := true |}).
Proof. unfold update. cbv zeta. destruct (update_loop _ _ _ _). reflexivity. Qed.

Lemma elapsed_primed (t : NetworkRateTracker) (now : Q) :
  _initialized t = true -> 0 < now - _prev_time t ->
  elapsed t now = now - _prev_time t.
Proof.
  intros Hi Hdt. unfold elapsed. rewrite Hi.
  rewrite (proj2 (Qlt_bool_iff _ _) Hdt). reflexivity.
Qed.

Lemma elapsed_unprimed (t : NetworkRateTracker) (now : Q) :
  _initialized t = false \/ now - _prev_time t <= 0 -> elapsed t now = 0.
Proof.
  intros [Hi|Hdt]; unfold elapsed.
  - rewrite Hi. reflexivity.
  - rewrite (proj2 (Qlt_bool_false_iff _ _) Hdt), andb_false_r. reflexivity.
Qed.

(** When the names of the snapshot's NICs are distinct (they are the keys
    of a dict), every NIC of the updated snapshot is the loop body applied
    to a NIC of the input in the state the tracker had before the call. *)
Lemma update_elem (t : NetworkRateTracker) (s : Snapshot) (config : MonitorConfig)
    (net_counters : gmap string Counters) (now : Q) (nic' : Nic) :
  NoDup (name <$> nics s) ->
  nic' ∈ nics (update t s config net_counters now).1 ->
  exists nic, nic ∈ nics s /\
    nic' = (update_nic net_counters (elapsed t now)
              {| acc_prev := _prev t; total_rx := 0; total_tx := 0 |} nic).1.
Proof.
  intros Hnd. rewrite update_unfold. cbv zeta. simpl.
  intros [i Hi]%list_elem_of_lookup.
  destruct (nics s !! i) as [nic|] eqn:Hs.
  - exists nic. split; [apply list_elem_of_lookup; eauto|].
    rewrite (update_loop_lookup _ _ _ _ i nic Hs) in Hi; [congruence|].
    apply NoDup_lookup_fresh; assumption.
  - apply lookup_lt_Some in Hi. rewrite update_loop_length in Hi.
    apply lookup_ge_None in Hs. exfalso. lia.
Qed.

Lemma rate_mbps_neg (cur prev : Z) (dt : Q) :
  0 < dt -> (cur < prev)%Z -> rate_mbps cur prev dt <= 0.
Proof.
  intros Hdt Hlt. unfold rate_mbps, Qdiv.
  assert (Hi : 0 < / (dt * 1000000)) by (apply Qinv_lt_0_compat; lra).
  assert (Hn : inject_Z ((cur - prev) * 8) <= 0).
  { change 0 with (inject_Z 0). rewrite <- Zle_Qle. lia. }
  generalize dependent (/ (dt * 1000000)).
  generalize dependent (inject_Z ((cur - prev) * 8)).
  intros n Hn i Hi. nra.
Qed.

(** The rate written for a NIC that has a previous sample, against the
    formula [max(0, (cur - prev) * 8 / (dt * 1_000_000))]. *)
Lemma reported_rate (cur prev : Z) (dt : Q) :
  0 < dt ->
  let exact := Qmax 0 (inject_Z ((cur - prev) * 8) / (dt * 1000000)) in
  let reported := Num.round1 (Num.py_max (rate_mbps cur prev dt) 0) in
  reported = Num.round1 exact /\
  Qabs (reported - exact) <= 1 # 20 /\
  0 <= reported /\
  ((cur < prev)%Z -> reported == 0).
Proof.
  intros Hdt exact reported.
  assert (E : reported = Num.round1 exact).
  { apply round1_comp, py_max_0. }
  split; [exact E|]. split; [rewrite E; apply round1_error|].
  split; [apply round1_nonneg, py_max_0_nonneg|].
  intros Hlt. subst reported.
  rewrite (round1_comp _ 0); [reflexivity|].
  apply py_max_0_neg, rate_mbps_neg; assumption.
Qed.

(** The same, with the tolerance that the doubles of the source need. *)
Lemma reported_rate_tolerance (cur prev : Z) (dt : Q) :
  0 < dt ->
  let exact := Qmax 0 (inject_Z ((cur - prev) * 8) / (dt * 1000000)) in
  let reported := Num.round1 (Num.py_max (rate_mbps cur prev dt) 0) in
  Qabs (reported - exact) <= report_tolerance exact /\
  0 <= reported /\
  ((cur < prev)%Z -> reported == 0).
Proof.
  intros Hdt exact reported.
  destruct (reported_rate cur prev dt Hdt) as (_ & Hb & Hn & Hz).
  fold exact reported in Hb, Hn, Hz.
  split; [|split; assumption].
  assert (He : 0 <= exact) by apply Q.le_max_l.
  unfold report_tolerance.
  generalize dependent (Qabs (reported - exact)). intros a Ha.
  generalize dependent exact. intros x Hx.
  assert (Hs : 0 <= (x + 1) * (1 # 2 ^ 40)).
  { apply Qmult_le_0_compat; [lra | discriminate]. }
  lra.
Qed.

(** The totals of the updated snapshot, for a snapshot whose NICs without
    a current counter carry the placeholder 0. *)
Lemma update_totals (t : NetworkRateTracker) (s : Snapshot) (config : MonitorConfig)
    (net_counters : gmap string Counters) (now : Q) :
  Forall (fun nic => net_counters !! name nic = None ->
                     rxMbps nic == 0 /\ txMbps nic == 0) (nics s) ->
  let s' := (update t s config net_counters now).1 in
  networkRxMbps s' == sum_rates rxMbps (nics s') /\
  networkTxMbps s' == sum_rates txMbps (nics s') /\
  Forall (fun nic => 0 <= rxMbps nic /\ 0 <= txMbps nic) (nics s').
Proof.
  intros Hs. rewrite update_unfold. cbv zeta. simpl.
  destruct (update_loop_totals net_counters (elapsed t now) (nics s)
              {| acc_prev := _prev t; total_rx := 0; total_tx := 0 |} Hs)
    as (I1 & I2 & I3 & I4 & I5).
  simpl in *.
  repeat split.
  - rewrite round1_tenth by (apply I3, tenth_valued_0). rewrite I1. ring.
  - rewrite round1_tenth by (apply I4, tenth_valued_0). rewrite I2. ring.
  - exact I5.
Qed.

Lemma placeholder_weaken (net_counters : gmap string Counters) (l : list Nic) :
  Forall (fun nic => rxMbps nic = 0 /\ txMbps nic = 0) l ->
  Forall (fun nic => net_counters !! name nic = None ->
                     rxMbps nic == 0 /\ txMbps nic == 0) l.
Proof.
  intros H. eapply Forall_impl; [exact H|].
  intros nic [-> ->] _. split; reflexivity.
Qed.

Lemma sum_rates_zero (f : Nic -> Q) (l : list Nic) :
  Forall (fun nic => f nic = 0) l -> sum_rates f l == 0.
Proof.
  induction 1 as [|nic l Hnic _ IH]; simpl; [reflexivity|].
  rewrite Hnic, IH. reflexivity.
Qed.

End Update.

(** ** Claims about the network rate tracker *)

Section TrackerClaims.
Local Open Scope Q_scope.

(** C1.  On a primed tracker, with a positive elapsed time [dt], every
    NIC of the snapshot that has a previous counter in [_prev] and a
    current counter is reported with the rate
    [max(0, (cur - prev) * 8 / (dt * 1_000_000))] up to the rounding of
    the report: the reported value lies within [report_tolerance] of the
    exact value (half a unit of the reported decimal, and the relative
    error of double arithmetic), is never negative, and is 0 when the
    counter decreased.  Which neighbour a value half way between two
    decimals is rounded to is not stated.  The NIC names of the snapshot
    are distinct, as in every snapshot built by [collect_snapshot]. *)
Theorem update_rate_formula (t : NetworkRateTracker) (s : Snapshot)
    (config : MonitorConfig) (net_counters : gmap string Counters) (now : Q)
    (nic' : Nic) (p : PrevBytes) (c : Counters) :
  _initialized t = true ->
  0 < now - _prev_time t ->
  NoDup (name <$> nics s) ->
  nic' ∈ nics (update t s config net_counters now).1 ->
  _prev t !! name nic' = Some p ->
  net_counters !! name nic' = Some c ->
  let dt := now - _prev_time t in
  let exact_rx := Qmax 0 (inject_Z ((bytes_recv c - rx p) * 8) / (dt * 1000000)) in
  let exact_tx := Qmax 0 (inject_Z ((bytes_sent c - tx p) * 8) / (dt * 1000000)) in
  (Qabs (rxMbps nic' - exact_rx) <= report_tolerance exact_rx /\
   Qabs (txMbps nic' - exact_tx) <= report_tolerance exact_tx) /\
  (0 <= rxMbps nic' /\ 0 <= txMbps nic') /\
  ((bytes_recv c < rx p)%Z -> rxMbps nic' == 0) /\
  ((bytes_sent c < tx p)%Z -> txMbps nic' == 0).
Proof.
  intros Hinit Hdt Hnd Hin Hp Hc dt exact_rx exact_tx.
  destruct (update_elem _ _ _ _ _ _ Hnd Hin) as (nic & _ & ->).
  rewrite update_nic_name in Hp, Hc.
  rewrite (elapsed_primed _ _ Hinit Hdt). fold dt.
  unfold update_nic. rewrite Hc. simpl. rewrite Hp.
  rewrite (proj2 (Qlt_bool_iff 0 dt) Hdt). simpl.
  destruct (reported_rate_tolerance (bytes_recv c) (rx p) dt Hdt) as (R2 & R3 & R4).
  destruct (reported_rate_tolerance (bytes_sent c) (tx p) dt Hdt) as (T2 & T3 & T4).
  repeat split; assumption.
Qed.

Lemma update_rate_formula_witness :
  let nic' := {| name := Sample.eth0; ipv4 := "10.0.0.5";
                 rxMbps := 100 # 10; txMbps := 0 # 10 |} in
  let exact_rx := Qmax 0 (inject_Z ((3500000 - 1000000) * 8) / ((102 - 100) * 1000000)) in
  let exact_tx := Qmax 0 (inject_Z ((4000 - 5000000) * 8) / ((102 - 100) * 1000000)) in
  (Qabs (rxMbps nic' - exact_rx) <= report_tolerance exact_rx /\
   Qabs (txMbps nic' - exact_tx) <= report_tolerance exact_tx) /\
  (0 <= rxMbps nic' /\ 0 <= txMbps nic') /\
  ((3500000 < 1000000)%Z -> rxMbps nic' == 0) /\
  ((4000 < 5000000)%Z -> txMbps nic' == 0).
Proof.
  apply (update_rate_formula Sample.primed Sample.snapshot0 empty_config
           Sample.counters_t2 102
           {| name := Sample.eth0; ipv4 := "10.0.0.5";
              rxMbps := 100 # 10; txMbps := 0 # 10 |}
           {| rx := 1000000; tx := 5000000 |}
           {| bytes_sent := 4000; bytes_recv := 3500000 |}).
  - reflexivity.
  - reflexivity.
  - vm_compute. repeat constructor. inversion 1.
  - vm_compute. left.
  - reflexivity.
  - reflexivity.
Defined.

(** The shape of an updated [collect_snapshot] snapshot, shared by the
    two statements below. *)
Lemma collect_update_shape (t : NetworkRateTracker) (config : MonitorConfig)
    (net_counters0 net_counters : gmap string Counters)
    (nic_addrs : gmap string (list Addr)) (now : Q) :
  let s := collect_snapshot config net_counters0 nic_addrs in
  let s' := (update t s config net_counters now).1 in
  networkRxMbps s' == sum_rates rxMbps (nics s') /\
  networkTxMbps s' == sum_rates txMbps (nics s') /\
  name <$> nics s' = name <$> nics s /\
  (forall nic', nic' ∈ nics s' ->
     ~ 0 < elapsed t now \/ _prev t !! name nic' = None
       \/ net_counters !! name nic' = None ->
     rxMbps nic' = 0 /\ txMbps nic' = 0).
Proof.
  intros s s'.
  assert (Hz : Forall (fun nic => rxMbps nic = 0 /\ txMbps nic = 0) (nics s))
    by apply collect_nics_placeholder.
  destruct (update_totals t s config net_counters now
              (placeholder_weaken _ _ Hz)) as (H1 & H2 & _).
  split; [exact H1|]. split; [exact H2|]. split.
  - subst s'. rewrite update_unfold. cbv zeta. simpl. apply update_loop_names.
  - intros nic' Hin Hno.
    destruct (update_elem t s config net_counters now nic'
                (collect_snapshot_NoDup _ _ _) Hin) as (nic & Hnic & ->).
    rewrite update_nic_name in Hno.
    rewrite Forall_forall in Hz. specialize (Hz nic Hnic).
    unfold update_nic.
    destruct (net_counters !! name nic) as [c|]; [|exact Hz].
    simpl. destruct (Qlt_bool 0 (elapsed t now)) eqn:Hdt; [|split; reflexivity].
    destruct (_prev t !! name nic); [|split; reflexivity].
    apply Qlt_bool_iff in Hdt. destruct Hno as [Hno|[Hno|Hno]]; [tauto|done|done].
Qed.

(** C2.  After an [update] of a snapshot built by [collect_snapshot], the
    aggregate [networkRxMbps] (resp. [networkTxMbps]) equals the sum of
    the per-NIC [rxMbps] (resp. [txMbps]) of the same snapshot, every
    per-NIC rate is non-negative, and no NIC is dropped: a NIC for which
    no rate was computed in this call (elapsed time not positive, no
    previous sample, or no current counter) stays in the list with rate 0. *)
Theorem update_totals_are_sums (t : NetworkRateTracker) (config : MonitorConfig)
    (net_counters0 net_counters : gmap string Counters)
    (nic_addrs : gmap string (list Addr)) (now : Q) :
  let s := collect_snapshot config net_counters0 nic_addrs in
  let s' := (update t s config net_counters now).1 in
  networkRxMbps s' == sum_rates rxMbps (nics s') /\
  networkTxMbps s' == sum_rates txMbps (nics s') /\
  Forall (fun nic => 0 <= rxMbps nic /\ 0 <= txMbps nic) (nics s') /\
  name <$> nics s' = name <$> nics s /\
  (forall nic', nic' ∈ nics s' ->
     ~ 0 < elapsed t now \/ _prev t !! name nic' = None
       \/ net_counters !! name nic' = None ->
     rxMbps nic' = 0 /\ txMbps nic' = 0).
Proof.
  intros s s'.
  destruct (collect_update_shape t config net_counters0 net_counters
              nic_addrs now) as (H1 & H2 & H4 & H5).
  assert (Hz : Forall (fun nic => rxMbps nic = 0 /\ txMbps nic = 0) (nics s))
    by apply collect_nics_placeholder.
  destruct (update_totals t s config net_counters now
              (placeholder_weaken _ _ Hz)) as (_ & _ & H3).
  split; [exact H1|]. split; [exact H2|]. split; [exact H3|].
  split; [exact H4 | exact H5].
Qed.

(** C3.  On a tracker that is not initialised (in particular the fresh
    tracker of [NetworkRateTracker()]) or whose clock did not advance
    ([now - _prev_time <= 0]), [update] of a snapshot built by
    [collect_snapshot] leaves every NIC with rate 0 and both totals at 0,
    whatever the counters are; it still stores the current counters of
    every NIC of the snapshot that has some in [_prev], the timestamp in
    [_prev_time], and sets [_initialized]. *)
Theorem update_unprimed_zero (t : NetworkRateTracker) (config : MonitorConfig)
    (net_counters0 net_counters : gmap string Counters)
    (nic_addrs : gmap string (list Addr)) (now : Q) :
  _initialized t = false \/ now - _prev_time t <= 0 ->
  let s := collect_snapshot config net_counters0 nic_addrs in
  let r := update t s config net_counters now in
  Forall (fun nic => rxMbps nic = 0 /\ txMbps nic = 0) (nics r.1) /\
  (networkRxMbps r.1 == 0 /\ networkTxMbps r.1 == 0) /\
  name <$> nics r.1 = name <$> nics s /\
  (forall nic c, nic ∈ nics s -> net_counters !! name nic = Some c ->
     _prev r.2 !! name nic = Some {| rx := bytes_recv c; tx := bytes_sent c |}) /\
  _prev_time r.2 = now /\ _initialized r.2 = true.
Proof.
  intros Hun s r.
  destruct (collect_update_shape t config net_counters0 net_counters nic_addrs now)
    as (H1 & H2 & Hnames & Hzero).
  fold s in H1, H2, Hnames, Hzero. fold r in H1, H2, Hnames, Hzero.
  assert (Hall : Forall (fun nic => rxMbps nic = 0 /\ txMbps nic = 0) (nics r.1)).
  { apply Forall_forall. intros nic' Hin. apply Hzero; [exact Hin|].
    left. rewrite (elapsed_unprimed _ _ Hun). lra. }
  split; [exact Hall|]. split; [|split; [exact Hnames|]].
  - split.
    + rewrite H1. apply sum_rates_zero. eapply Forall_impl; [exact Hall|].
      intros ? [? ?]; assumption.
    + rewrite H2. apply sum_rates_zero. eapply Forall_impl; [exact Hall|].
      intros ? [? ?]; assumption.
  - subst r. rewrite update_unfold. cbv zeta. simpl.
    split; [|split; reflexivity].
    intros nic c Hin Hc. rewrite update_loop_prev, Hc.
    rewrite bool_decide_eq_true_2; [reflexivity|].
    apply list_elem_of_fmap. exists nic. split; [reflexivity | exact Hin].
Qed.

Lemma update_unprimed_zero_witness :
  let r := update new_tracker Sample.snapshot0 empty_config Sample.counters_t0 100 in
  Forall (fun nic => rxMbps nic = 0 /\ txMbps nic = 0) (nics r.1) /\
  (networkRxMbps r.1 == 0 /\ networkTxMbps r.1 == 0) /\
  name <$> nics r.1 = name <$> nics Sample.snapshot0 /\
  (forall nic c, nic ∈ nics Sample.snapshot0 ->
     Sample.counters_t0 !! name nic = Some c ->
     _prev r.2 !! name nic = Some {| rx := bytes_recv c; tx := bytes_sent c |}) /\
  _prev_time r.2 = 100 /\ _initialized r.2 = true.
Proof.
  apply (update_unprimed_zero new_tracker empty_config Sample.counters_t0
           Sample.counters_t0 Sample.addrs 100).
  left. reflexivity.
Defined.

End TrackerClaims.

(** ** The report loop *)

Section EventCounting.

Lemma count_app (f : Event -> bool) (tr1 tr2 : list Event) :
  count f (tr1 ++ tr2) = (count f tr1 + count f tr2)%nat.
Proof. unfold count. rewrite List.filter_app, length_app. reflexivity. Qed.

Lemma count_sig_events (f : Event -> bool) (sig : option SigPoint) (pt : SigPoint) :
  f EvSignal = false -> count f (sig_events sig pt) = 0%nat.
Proof.
  intros Hf. unfold sig_events, count.
  destruct (bool_decide _); simpl; [rewrite Hf|]; reflexivity.
Qed.

Lemma erase_app (f : Event -> bool) (tr1 tr2 : list Event) :
  erase f (tr1 ++ tr2) = erase f tr1 ++ erase f tr2.
Proof. unfold erase. apply List.filter_app. Qed.

Lemma erase_signal_sig_events (sig : option SigPoint) (pt : SigPoint) :
  erase is_signal (sig_events sig pt) = [].
Proof. unfold sig_events. destruct (bool_decide _); reflexivity. Qed.

End EventCounting.

Section ReportTick.

Variable args_interval : option Z.

Lemma classify_report_spec (known : Z) (resp : Response ReportData) :
  match classify_report known resp with
  | None => exists data, resp = HttpResponse 401 data
  | Some (known', true) =>
      refresh_needed known resp /\
      exists data, resp = HttpResponse 200 data
                   /\ known' = default 0 (configVersion data)
  | Some (known', false) =>
      ~ refresh_needed known resp /\
      ((exists data, resp = HttpResponse 200 data
                     /\ known' = default 0 (configVersion data))
       \/ ((forall data, resp <> HttpResponse 200 data) /\ known' = known))
  end.
Proof.
  unfold classify_report, refresh_needed.
  destruct resp as [code data|].
  - destruct (code =? 200) eqn:E200.
    + apply Z.eqb_eq in E200. subst code.
      destruct (known <? 0) eqn:Eneg.
      * apply Z.ltb_lt in Eneg. split.
        -- intros (d & Hd & Hk & _). lia.
        -- left. eauto.
      * apply Z.ltb_ge in Eneg.
        destruct (default 0 (configVersion data) =? known) eqn:Ev; simpl.
        -- apply Z.eqb_eq in Ev. split.
           ++ intros (d & Hd & _ & Hne). inversion Hd; subst d. congruence.
           ++ left. exists data. split; [reflexivity | congruence].
        -- apply Z.eqb_neq in Ev. split; eauto.
    + apply Z.eqb_neq in E200.
      destruct (code =? 401) eqn:E401.
      * apply Z.eqb_eq in E401. subst code. eauto.
      * split.
        -- intros (d & Hd & _). congruence.
        -- right. split; [intros d Hd; congruence | reflexivity].
  - split.
    + intros (d & Hd & _). discriminate.
    + right. split; [intros d Hd; discriminate | reflexivity].
Qed.

Lemma report_tick_unfold (st : MainState) (inp : TickInput) :
  let a := annotated_snapshot (monitor_config st) (net_tracker st) (ti_probe inp) in
  let post := EvPostReport a.1 :: sig_events (ti_signal inp) DuringRequest in
  report_tick args_interval st inp =
  match classify_report (known_config_version st) (ti_report inp) with
  | None =>
      (TickExit 1,
       {| running := deliver (ti_signal inp) [DuringRequest] (running st);
          monitor_config := monitor_config st;
          interval := interval st;
          known_config_version := known_config_version st;
          net_tracker := a.2 |},
       post)
  | Some (known', true) =>
      let r := refresh_config args_interval (monitor_config st) (interval st)
                 (ti_refresh inp) in
      (TickContinue,
       {| running := deliver (ti_signal inp) [DuringRequest; DuringSleep] (running st);
          monitor_config := r.1;
          interval := r.2;
          known_config_version := known';
          net_tracker := a.2 |},
       post ++ [EvGetConfig] ++ [EvSleep r.2] ++ sig_events (ti_signal inp) DuringSleep)
  | Some (known', false) =>
      (TickContinue,
       {| running := deliver (ti_signal inp) [DuringRequest; DuringSleep] (running st);
          monitor_config := monitor_config st;
          interval := interval st;
          known_config_version := known';
          net_tracker := a.2 |},
       post ++ [] ++ [EvSleep (interval st)] ++ sig_events (ti_signal inp) DuringSleep)
  end.
Proof.
  cbv zeta. unfold report_tick.
  destruct (annotated_snapshot _ _ _) as [snapshot tracker]. simpl.
  destruct (classify_report _ _) as [[known' [|]]|]; [|reflexivity|reflexivity].
  destruct (refresh_config _ _ _ _). reflexivity.
Qed.

Lemma report_tick_gets (st : MainState) (inp : TickInput) :
  count is_get (tick_trace (report_tick args_interval st inp)) =
  match classify_report (known_config_version st) (ti_report inp) with
  | Some (_, true) => 1%nat
  | _ => 0%nat
  end.
Proof.
  rewrite report_tick_unfold. cbv zeta.
  destruct (classify_report _ _) as [[known' [|]]|];
    unfold tick_trace, count, sig_events;
    repeat destruct (bool_decide _); reflexivity.
Qed.

End ReportTick.

(** ** Claims about the report loop and the config refresh *)

Section ReportLoopClaims.

(** What one tick does with the version, in terms of the variable
    [known_config_version]: a config fetch is made exactly when the report
    got a 200 response whose [configVersion] differs from a value of the
    variable that is not negative; an accepted report always leaves the
    returned version in the variable, any other outcome leaves the
    variable as it was; the loop is entered with [-1]. *)
Theorem refresh_iff_version_changed (args_interval : option Z) (st : MainState)
    (inp : TickInput) :
  let r := report_tick args_interval st inp in
  (count is_get (tick_trace r) = 1%nat
   <-> refresh_needed (known_config_version st) (ti_report inp)) /\
  (count is_get (tick_trace r) = 0%nat
   <-> ~ refresh_needed (known_config_version st) (ti_report inp)) /\
  (forall data, ti_report inp = HttpResponse 200 data ->
     tick_end r = TickContinue /\
     known_config_version (tick_state r) = default 0 (configVersion data)) /\
  ((forall data, ti_report inp <> HttpResponse 200 data) ->
     known_config_version (tick_state r) = known_config_version st) /\
  (forall config prime,
     known_config_version (enter_report_loop args_interval config prime) = -1).
Proof.
  intros r. subst r. rewrite report_tick_gets.
  rewrite report_tick_unfold. cbv zeta.
  pose proof (classify_report_spec (known_config_version st) (ti_report inp)) as H.
  destruct (classify_report _ _) as [[known' [|]]|]; unfold tick_end, tick_state; simpl.
  - destruct H as (Hneed & data & Hd & Hk).
    split; [tauto|]. split; [split; [discriminate | tauto]|].
    split; [|split; [|reflexivity]].
    + intros d Hd'. rewrite Hd in Hd'. inversion Hd'; subst d. auto.
    + intros Hno. destruct (Hno _ Hd).
  - destruct H as (Hneed & Hk).
    split; [split; [discriminate | tauto]|]. split; [tauto|].
    split; [|split; [|reflexivity]].
    + intros d Hd. destruct Hk as [(data & Hd' & Hk)|[Hno _]].
      * rewrite Hd in Hd'. inversion Hd'; subst d. auto.
      * destruct (Hno _ Hd).
    + intros Hno. destruct Hk as [(data & Hd' & _)|[_ Hk]]; [destruct (Hno _ Hd') | exact Hk].
  - destruct H as (data & Hd).
    assert (Hneed : ~ refresh_needed (known_config_version st) (ti_report inp)).
    { intros (d & Hd' & _). congruence. }
    split; [split; [discriminate | tauto]|]. split; [tauto|].
    split; [|split; reflexivity].
    intros d Hd'. congruence.
Qed.

(** C4.  The code at the failing input: the server answers the first
    report with [configVersion = -2] and the second with [-3].  The
    version recorded by the first report is [-2], the version returned
    to the second report differs from it, and no config fetch is made:
    the test [known_config_version < 0], meant for the first report
    (comments at lines 519 and 539), also holds after a negative version
    was recorded. *)
Lemma negative_version_no_refresh :
  let tick1 := Sample.ok_tick (-2) RequestException in
  let tick2 := Sample.ok_tick (-3) RequestException in
  let st1 := tick_state (report_tick None Sample.entered tick1) in
  let r := report_loop None Sample.entered [tick1; tick2] in
  known_config_version st1 = -2 /\
  ti_report tick2 = HttpResponse 200 {| configVersion := Some (-3) |} /\
  -3 <> known_config_version st1 /\
  count is_post r.2 = 2%nat /\
  count is_get r.2 = 0%nat.
Proof. vm_compute. repeat split; discriminate. Qed.

(** The scenario of the spec: versions 1 then 2 give exactly one config
    fetch, after the second report and not before the first. *)
Example versions_1_2_one_refresh :
  erase is_post
    (report_loop None Sample.entered
       [Sample.ok_tick 1 RequestException;
        Sample.ok_tick 2 (HttpResponse 200 Sample.config30)]).2
  = [EvSleep 10; EvGetConfig; EvSleep 30].
Proof. vm_compute. reflexivity. Qed.



Lemma report_loop_cons (args_interval : option Z) (st : MainState)
    (inp : TickInput) (rest : list TickInput) :
  running st = true ->
  report_loop args_interval st (inp :: rest) =
  let r := report_tick args_interval st inp in
  match tick_end r with
  | TickExit code => (LoopExit code, tick_state r, tick_trace r)
  | TickContinue =>
      let r' := report_loop args_interval (tick_state r) rest in
      (r'.1.1, r'.1.2, tick_trace r ++ r'.2)
  end.
Proof.
  intros Hrun. simpl. rewrite Hrun. cbv zeta.
  destruct (report_tick args_interval st inp) as [[[|code] st'] tr];
    unfold tick_end, tick_state, tick_trace; simpl; [|reflexivity].
  destruct (report_loop args_interval st' rest) as [[e st''] tr']. reflexivity.
Qed.

Lemma report_loop_stopped (args_interval : option Z) (st : MainState)
    (inputs : list TickInput) :
  running st = false -> report_loop args_interval st inputs = (LoopStopped, st, []).
Proof. intros Hrun. destruct inputs; simpl; rewrite Hrun; reflexivity. Qed.

(** C6 (amended).  A 401 on the initial config pull or on a report is
    terminal: [sys.exit(1)] is reached at once, with no wait, no retry and
    no further request, whatever inputs would follow. *)
Theorem token_rejected_is_terminal (args_interval : option Z) :
  (forall retry_count body sig rest prime ticks,
     let inp := {| fi_resp := HttpResponse 401 body; fi_signal := sig |} in
     fetch_initial true retry_count (inp :: rest)
     = (FetchExit 1, EvGetConfig :: sig_events sig DuringRequest) /\
     (main_from_step3 args_interval true (inp :: rest) prime ticks).1 = MainExit 1) /\
  (forall st inp data rest,
     running st = true ->
     ti_report inp = HttpResponse 401 data ->
     let r := report_loop args_interval st (inp :: rest) in
     r.1.1 = LoopExit 1 /\
     exists snapshot, erase is_signal r.2 = [EvPostReport snapshot]).
Proof.
  split.
  - intros retry_count body sig rest prime ticks inp. split; reflexivity.
  - intros st inp data rest Hrun Hresp r. subst r.
    rewrite (report_loop_cons _ _ _ _ Hrun). cbv zeta.
    rewrite report_tick_unfold. cbv zeta. rewrite Hresp. simpl.
    split; [reflexivity|]. eexists. unfold erase, sig_events.
    destruct (bool_decide _); reflexivity.
Qed.

Lemma token_rejected_is_terminal_witness :
  (report_loop None Sample.recorded1
     [ {| ti_probe := Sample.probe 110;
          ti_report := HttpResponse 401 {| configVersion := None |};
          ti_refresh := RequestException;
          ti_signal := None |};
       Sample.ok_tick 1 RequestException ]).1.1 = LoopExit 1.
Proof.
  apply (proj2 (token_rejected_is_terminal None) Sample.recorded1
           {| ti_probe := Sample.probe 110;
              ti_report := HttpResponse 401 {| configVersion := None |};
              ti_refresh := RequestException;
              ti_signal := None |}
           {| configVersion := None |}
           [Sample.ok_tick 1 RequestException]);
    reflexivity.
Defined.

(** C6, the statement as written fails for the refresh fetch: the report
    is accepted with a new version, the config endpoint answers the
    refresh with 401, and the loop sleeps and posts the next report. *)
Lemma refresh_401_not_terminal :
  let r := report_loop None Sample.recorded1
             [Sample.ok_tick 2 (HttpResponse 401 empty_config);
              Sample.ok_tick 2 RequestException] in
  r.1.1 = LoopPending /\
  count is_post r.2 = 2%nat /\
  erase is_post r.2 = [EvGetConfig; EvSleep 10; EvSleep 10] /\
  monitor_config r.1.2 = Sample.config10.
Proof. vm_compute. repeat split. Qed.

End ReportLoopClaims.

(** ** The initial config pull *)

Section FetchInitial.

Lemma fetch_initial_retry (retry_count : Z) (inp : FetchInput)
    (rest : list FetchInput) :
  retryable (fi_resp inp) ->
  fetch_initial true retry_count (inp :: rest) =
  let r := fetch_initial
             (deliver (fi_signal inp) [DuringRequest; DuringSleep] true)
             (retry_count + 1) rest in
  (r.1, (EvGetConfig :: sig_events (fi_signal inp) DuringRequest)
        ++ retry_wait (retry_count + 1) (fi_signal inp) ++ r.2).
Proof.
  intros Hr. cbn [fetch_initial]. cbv zeta.
  destruct (fetch_initial _ (retry_count + 1) rest) as [e tr] eqn:E.
  destruct (fi_resp inp) as [code body|]; [|reflexivity].
  destruct Hr as [H200 H401].
  rewrite (proj2 (Z.eqb_neq code 200) H200), (proj2 (Z.eqb_neq code 401) H401).
  reflexivity.
Qed.

(** A run of failed attempts without signal: all of them are made, each
    followed by the wait, and the loop goes on. *)
Lemma fetch_initial_retries (pre rest : list FetchInput) (retry_count : Z) :
  Forall quiet_retry pre ->
  fetch_initial true retry_count (pre ++ rest) =
  let r := fetch_initial true (retry_count + Z.of_nat (length pre)) rest in
  (r.1, retries retry_count (length pre) ++ r.2).
Proof.
  intros Hpre. revert retry_count.
  induction Hpre as [|inp pre [Hr Hs] _ IH]; intros retry_count.
  - cbv zeta. simpl. rewrite Z.add_0_r.
    destruct (fetch_initial true retry_count rest). reflexivity.
  - rewrite <- app_comm_cons, (fetch_initial_retry _ _ _ Hr), Hs.
    cbv zeta. change (deliver None _ true) with true.
    rewrite IH. cbv zeta. cbn [fst snd length retries].
    replace (retry_count + 1 + Z.of_nat (length pre))
      with (retry_count + Z.of_nat (S (length pre))) by lia.
    f_equal. unfold sig_events. simpl. rewrite <- !app_assoc. reflexivity.
Qed.

Lemma erase_warning_retries (retry_count : Z) (n : nat) :
  erase is_warning (retries retry_count n)
  = concat (repeat [EvGetConfig; EvSleep 5] n).
Proof.
  revert retry_count. induction n as [|n IH]; intros retry_count; [reflexivity|].
  cbn [retries repeat concat]. unfold retry_wait, sig_events. simpl.
  destruct (60 <? retry_count + 1); simpl; unfold erase in *; simpl;
    rewrite IH; reflexivity.
Qed.

(** The loop ends only through one of its three exits. *)
Lemma fetch_initial_ends (inputs : list FetchInput) (running : bool)
    (retry_count : Z) :
  match (fetch_initial running retry_count inputs).1 with
  | FetchOk config =>
      exists inp, inp ∈ inputs /\ fi_resp inp = HttpResponse 200 config
  | FetchExit code =>
      code = 1 /\ exists inp body, inp ∈ inputs /\ fi_resp inp = HttpResponse 401 body
  | FetchCancelled =>
      running = false \/ exists inp, inp ∈ inputs /\ fi_signal inp <> None
  | FetchPending _ => True
  end.
Proof.
  revert running retry_count.
  induction inputs as [|inp rest IH]; intros running retry_count.
  - destruct running; simpl; auto.
  - destruct running; [|simpl; auto].
    cbn [fetch_initial]. cbv zeta.
    specialize (IH (deliver (fi_signal inp) [DuringRequest; DuringSleep] true)
                   (retry_count + 1)).
    destruct (fetch_initial _ (retry_count + 1) rest) as [e tr] eqn:E.
    assert (Hretry :
      match e with
      | FetchOk config =>
          exists i, i ∈ inp :: rest /\ fi_resp i = HttpResponse 200 config
      | FetchExit code =>
          code = 1 /\ exists i body, i ∈ inp :: rest /\ fi_resp i = HttpResponse 401 body
      | FetchCancelled =>
          true = false \/ exists i, i ∈ inp :: rest /\ fi_signal i <> None
      | FetchPending _ => True
      end).
    { simpl in IH. destruct e as [config|code| |rc]; auto.
      - destruct IH as (i & Hi & Hc). exists i. split; [right; exact Hi | exact Hc].
      - destruct IH as (Hc & i & body & Hi & Hb).
        split; [exact Hc|]. exists i, body. split; [right; exact Hi | exact Hb].
      - right. destruct IH as [Hd|(i & Hi & Hs)].
        + exists inp. split; [left|]. intros Hn. rewrite Hn in Hd. discriminate.
        + exists i. split; [right; exact Hi | exact Hs]. }
    destruct (fi_resp inp) as [code body|] eqn:Hresp; [|exact Hretry].
    destruct (code =? 200) eqn:E200.
    + apply Z.eqb_eq in E200. subst code. simpl.
      destruct (deliver (fi_signal inp) [DuringRequest] true) eqn:Hd; simpl.
      * exists inp. split; [left | exact Hresp].
      * right. exists inp. split; [left|]. intros Hn. rewrite Hn in Hd. discriminate.
    + destruct (code =? 401) eqn:E401; [|exact Hretry].
      apply Z.eqb_eq in E401. subst code. simpl.
      split; [reflexivity|]. exists inp, body. split; [left | exact Hresp].
Qed.

Lemma fetch_initial_stopped (retry_count : Z) (inputs : list FetchInput) :
  fetch_initial false retry_count inputs = (FetchCancelled, []).
Proof. destruct inputs; reflexivity. Qed.

End FetchInitial.

(** ** Claims about the initial config pull and cancellation *)

Section FetchClaims.

(** C7.  As long as the attempts of the initial pull fail (transport
    failure, or a status that is neither 200 nor 401) and no signal
    arrives, every one of them is made, each is followed by a wait of 5,
    and the loop is still running afterwards with the counter advanced by
    the number of attempts.  Leaving the warnings out, the events are the
    same whatever the counter is: the warning, emitted once the counter
    exceeds 60, changes neither the delay nor the decision to retry.  The
    loop ends only on a 200 response, on a 401 response, or on
    cancellation. *)
Theorem initial_fetch_retries_forever (inputs : list FetchInput) (retry_count : Z) :
  Forall quiet_retry inputs ->
  let n := length inputs in
  fetch_initial true retry_count inputs
  = (FetchPending (retry_count + Z.of_nat n), retries retry_count n) /\
  erase is_warning (retries retry_count n)
  = concat (repeat [EvGetConfig; EvSleep 5] n) /\
  (forall (running : bool) (rc : Z) (others : list FetchInput),
     match (fetch_initial running rc others).1 with
     | FetchOk config =>
         exists inp, inp ∈ others /\ fi_resp inp = HttpResponse 200 config
     | FetchExit code =>
         code = 1 /\
         exists inp body, inp ∈ others /\ fi_resp inp = HttpResponse 401 body
     | FetchCancelled =>
         running = false \/ exists inp, inp ∈ others /\ fi_signal inp <> None
     | FetchPending _ => True
     end).
Proof.
  intros Hin n. split; [|split].
  - pose proof (fetch_initial_retries inputs [] retry_count Hin) as H.
    rewrite app_nil_r in H. rewrite H. cbv zeta. simpl.
    rewrite app_nil_r. reflexivity.
  - apply erase_warning_retries.
  - intros running rc others. apply fetch_initial_ends.
Qed.

Lemma initial_fetch_retries_forever_witness :
  fetch_initial true 59
    [Sample.timeout_attempt None; Sample.status_attempt 500;
     Sample.status_attempt 503]
  = (FetchPending 62,
     [EvGetConfig; EvSleep 5;
      EvGetConfig; EvWarnStillWaiting 61; EvSleep 5;
      EvGetConfig; EvWarnStillWaiting 62; EvSleep 5]).
Proof.
  apply (initial_fetch_retries_forever
           [Sample.timeout_attempt None; Sample.status_attempt 500;
            Sample.status_attempt 503] 59).
  repeat constructor; simpl; lia.
Defined.

(** The warning starts with the 61st failed attempt. *)
Example warning_threshold :
  count is_warning (retries 0 60) = 0%nat /\
  count is_warning (retries 0 61) = 1%nat.
Proof. vm_compute. split; reflexivity. Qed.

(** C8 (amended).  The flag cleared by the signal handler is read only by
    the two [while running] conditions and the [if not running] after the
    first loop.  When the signal is delivered during an iteration, no
    further retry cycle or report tick is started, but the iteration in
    progress is carried out in full: with the signal markers left out its
    events are those of the same iteration without a signal, its wait or
    sleep included. *)
Theorem cancellation_at_loop_head (args_interval : option Z) :
  (forall retry_count inp rest pt,
     fi_signal inp = Some pt ->
     let r := fetch_initial true retry_count (inp :: rest) in
     r = fetch_initial true retry_count [inp] /\
     (forall rc, r.1 <> FetchPending rc) /\
     erase is_signal r.2
     = (fetch_initial true retry_count [fetch_unsignalled inp]).2) /\
  (forall st inp rest pt,
     running st = true ->
     ti_signal inp = Some pt ->
     let r := report_loop args_interval st (inp :: rest) in
     r.1.1 <> LoopPending /\
     r.2 = tick_trace (report_tick args_interval st inp) /\
     erase is_signal r.2
     = tick_trace (report_tick args_interval st (tick_unsignalled inp))) /\
  (forall retry_count inputs,
     fetch_initial false retry_count inputs = (FetchCancelled, [])) /\
  (forall st inputs,
     running st = false ->
     report_loop args_interval st inputs = (LoopStopped, st, [])).
Proof.
  split; [|split; [|split]].
  - intros retry_count inp rest pt Hsig r. subst r.
    destruct inp as [resp sig]. simpl in Hsig. subst sig.
    unfold fetch_unsignalled. cbn [fetch_initial fi_resp fi_signal]. cbv zeta.
    assert (Hd : deliver (Some pt) [DuringRequest; DuringSleep] true = false)
      by (destruct pt; reflexivity).
    rewrite Hd, !fetch_initial_stopped. cbn [fetch_initial].
    assert (Herase : forall rc,
      erase is_signal
        ((EvGetConfig :: sig_events (Some pt) DuringRequest)
         ++ retry_wait rc (Some pt) ++ [])
      = (EvGetConfig :: sig_events None DuringRequest) ++ retry_wait rc None ++ []).
    { intros rc. unfold retry_wait, sig_events, erase.
      destruct pt, (60 <? rc); reflexivity. }
    destruct resp as [code body|].
    + destruct (code =? 200).
      * split; [reflexivity|]. split; [destruct pt; discriminate|].
        destruct pt; reflexivity.
      * destruct (code =? 401).
        -- split; [reflexivity|]. split; [discriminate|]. destruct pt; reflexivity.
        -- split; [reflexivity|]. split; [discriminate|]. apply Herase.
    + split; [reflexivity|]. split; [discriminate|]. apply Herase.
  - intros st inp rest pt Hrun Hsig r. subst r.
    rewrite (report_loop_cons _ _ _ _ Hrun). cbv zeta.
    rewrite !report_tick_unfold. cbv zeta.
    destruct inp as [probe report refresh sig]. simpl in Hsig. subst sig.
    unfold tick_unsignalled. cbn [ti_probe ti_report ti_refresh ti_signal].
    assert (Hd : deliver (Some pt) [DuringRequest; DuringSleep] (running st) = false)
      by (destruct pt; reflexivity).
    destruct (classify_report _ _) as [[known' [|]]|];
      unfold tick_end, tick_state, tick_trace; cbn [fst snd];
      rewrite ?Hd; rewrite ?report_loop_stopped by reflexivity; cbn [fst snd];
      rewrite ?app_nil_r;
      (split; [discriminate|]); (split; [reflexivity|]);
      unfold sig_events, erase; destruct pt; reflexivity.
  - apply fetch_initial_stopped.
  - intros st inputs Hrun. apply report_loop_stopped, Hrun.
Qed.

Lemma cancellation_at_loop_head_witness :
  (report_loop None Sample.recorded1
     [Sample.signalled_tick 1 RequestException;
      Sample.ok_tick 1 RequestException]).1.1 <> LoopPending.
Proof.
  apply (proj1 (proj2 (cancellation_at_loop_head None)) Sample.recorded1
           (Sample.signalled_tick 1 RequestException)
           [Sample.ok_tick 1 RequestException] DuringRequest);
    reflexivity.
Defined.

(** C8, the statement as written fails: the signal is delivered while a
    request of the initial pull is in flight, the request times out, and
    the full wait of 5 is started after the delivery; in the report loop,
    a signal delivered during the report request is followed by the
    refresh fetch and the full sleep of the interval. *)
Lemma full_wait_after_signal :
  let r := fetch_initial true 0
             [Sample.timeout_attempt (Some DuringRequest); Sample.ok_attempt] in
  let r' := report_loop None Sample.recorded1
              [Sample.signalled_tick 2 (HttpResponse 200 Sample.config30)] in
  r.1 = FetchCancelled /\
  after_signal r.2 = [EvSleep 5] /\
  r'.1.1 = LoopStopped /\
  after_signal r'.2 = [EvGetConfig; EvSleep 30].
Proof. vm_compute. repeat split. Qed.

End FetchClaims.

(** ** A failed refresh and the local state file *)

Section StaleConfig.

Variable args_interval : option Z.

Lemma classify_report_same_version (known : Z) (inp : TickInput) :
  reports_version known inp ->
  classify_report known (ti_report inp) = None
  \/ classify_report known (ti_report inp) = Some (known, false).
Proof.
  intros Hv. unfold classify_report.
  destruct (ti_report inp) as [code data|] eqn:Hresp; [|right; reflexivity].
  destruct (code =? 200) eqn:E200.
  - apply Z.eqb_eq in E200. subst code.
    rewrite (Hv data Hresp), Z.eqb_refl. simpl.
    right. destruct (known <? 0); reflexivity.
  - destruct (code =? 401); [left | right]; reflexivity.
Qed.

(** While the reports keep announcing the recorded version, the loop
    makes no config fetch and keeps its config, interval and version. *)
Lemma report_loop_same_version (later : list TickInput) (st : MainState) :
  Forall (reports_version (known_config_version st)) later ->
  let r := report_loop args_interval st later in
  count is_get r.2 = 0%nat /\
  monitor_config r.1.2 = monitor_config st /\
  interval r.1.2 = interval st /\
  known_config_version r.1.2 = known_config_version st.
Proof.
  intros Hl. revert st Hl.
  induction later as [|inp later IH]; intros st Hl.
  - simpl. destruct (running st); simpl; auto.
  - destruct (running st) eqn:Hrun.
    2: { rewrite (report_loop_stopped _ _ _ Hrun). simpl. auto. }
    apply Forall_cons in Hl as [Hinp Hl].
    rewrite (report_loop_cons _ _ _ _ Hrun). cbv zeta.
    pose proof (report_tick_gets args_interval st inp) as Hg.
    rewrite report_tick_unfold in *. cbv zeta in *.
    destruct (classify_report_same_version _ _ Hinp) as [E|E];
      rewrite E in *; unfold tick_end, tick_state, tick_trace in *;
      cbn [fst snd] in *.
    + simpl. auto.
    + match goal with
      | |- context [report_loop args_interval ?st' later] =>
          destruct (IH st' Hl) as (I1 & I2 & I3 & I4)
      end.
      cbn [monitor_config interval known_config_version] in *.
      rewrite count_app, Hg, I1. auto.
Qed.

(** C10.  In a tick whose report announces a new version, the new version
    is recorded whether or not the refresh fetch of that tick succeeds.
    If that fetch fails (transport failure or any status other than 200)
    the config is unchanged, and as long as later reports announce the
    same version (or are not accepted) no config fetch is made again and
    the config stays the stale one, for any number of ticks. *)
Theorem failed_refresh_not_retried (st : MainState) (inp : TickInput)
    (later : list TickInput) :
  refresh_needed (known_config_version st) (ti_report inp) ->
  (forall new_config, ti_refresh inp <> HttpResponse 200 new_config) ->
  let r1 := report_tick args_interval st inp in
  let v := known_config_version (tick_state r1) in
  (exists data, ti_report inp = HttpResponse 200 data
                /\ v = default 0 (configVersion data)
                /\ v <> known_config_version st) /\
  tick_end r1 = TickContinue /\
  count is_get (tick_trace r1) = 1%nat /\
  monitor_config (tick_state r1) = monitor_config st /\
  (Forall (reports_version v) later ->
   let r := report_loop args_interval (tick_state r1) later in
   count is_get r.2 = 0%nat /\
   monitor_config r.1.2 = monitor_config st /\
   known_config_version r.1.2 = v).
Proof.
  intros Hneed Hfail r1 v.
  assert (Hcfg : monitor_config (tick_state r1) = monitor_config st
                 /\ tick_end r1 = TickContinue
                 /\ count is_get (tick_trace r1) = 1%nat
                 /\ exists data, ti_report inp = HttpResponse 200 data
                      /\ v = default 0 (configVersion data)
                      /\ v <> known_config_version st).
  { subst v r1. rewrite report_tick_gets. rewrite report_tick_unfold. cbv zeta.
    pose proof (classify_report_spec (known_config_version st) (ti_report inp)) as H.
    destruct (classify_report _ _) as [[known' [|]]|].
    2: { destruct H as [H _]. contradiction. }
    2: { destruct H as [data Hd]. destruct Hneed as (d & Hd' & _). congruence. }
    destruct H as (_ & data & Hd & Hk).
    unfold tick_end, tick_state. simpl.
    split; [|split; [reflexivity|split; [reflexivity|]]].
    - unfold refresh_config. destruct (ti_refresh inp) as [code c|]; [|reflexivity].
      destruct (code =? 200) eqn:E200; [|reflexivity].
      apply Z.eqb_eq in E200. subst code. destruct (Hfail c). reflexivity.
    - exists data. split; [exact Hd|]. split; [exact Hk|].
      destruct Hneed as (d & Hd' & _ & Hne). subst known'. congruence. }
  destruct Hcfg as (Hc & He & Hg & Hd).
  split; [exact Hd|]. split; [exact He|]. split; [exact Hg|]. split; [exact Hc|].
  intros Hlater r.
  destruct (report_loop_same_version later (tick_state r1) Hlater)
    as (I1 & I2 & _ & I4).
  fold r in I1, I2, I4. split; [exact I1|]. split; [congruence | exact I4].
Qed.

End StaleConfig.

Lemma failed_refresh_not_retried_witness :
  let r := report_loop None
             (tick_state (report_tick None Sample.recorded1
                            (Sample.ok_tick 2 RequestException)))
             [Sample.ok_tick 2 (HttpResponse 200 Sample.config30);
              Sample.ok_tick 2 (HttpResponse 200 Sample.config30)] in
  count is_get r.2 = 0%nat /\
  monitor_config r.1.2 = Sample.config10 /\
  known_config_version r.1.2 = 2.
Proof.
  destruct (failed_refresh_not_retried None Sample.recorded1
              (Sample.ok_tick 2 RequestException)
              [Sample.ok_tick 2 (HttpResponse 200 Sample.config30);
               Sample.ok_tick 2 (HttpResponse 200 Sample.config30)])
    as (_ & _ & _ & _ & H).
  - exists {| configVersion := Some 2 |}.
    split; [reflexivity|]. split; vm_compute; discriminate.
  - intros new_config. discriminate.
  - apply H. repeat constructor; intros data Hd; inversion Hd; reflexivity.
Defined.

Section LocalState.

(** C9 (amended).  [save_local_config] overwrites the file in place: the
    file is first truncated by [open(path, "w")], then the document is
    written.  Once the call is over, [load_local_config] on the same path
    returns the saved data and no other file was touched; in the state
    between the two steps the file is empty, and a reader gets a JSON
    decoding error from it. *)
Theorem save_then_load (path : string) (data : LocalConfig)
    (fs : gmap string FileContent) :
  load_local_config (save_local_config path data fs) path = Loaded data /\
  (forall other, other <> path ->
     Forall (fun s : gmap string FileContent => s !! other = fs !! other)
            (save_states path data fs)) /\
  (exists fs1,
     save_states path data fs = [fs1; save_local_config path data fs] /\
     fs1 !! path = Some Truncated /\
     load_local_config fs1 path = JSONDecodeError).
Proof.
  unfold save_local_config, save_states, dump_close, open_w, load_local_config.
  split; [|split].
  - rewrite lookup_insert_eq. reflexivity.
  - intros other Hne. repeat constructor.
    + rewrite lookup_insert_ne by congruence. reflexivity.
    + rewrite !lookup_insert_ne by congruence. reflexivity.
  - eexists. split; [reflexivity|].
    rewrite lookup_insert_eq. split; reflexivity.
Qed.

(** C9, the statement as written fails: while the token of a new
    registration is being saved over an existing state file, one of the
    states of the file system shows neither the old nor the new state. *)
Lemma save_not_atomic :
  exists s : gmap string FileContent,
    s ∈ save_states Sample.config_path Sample.new_state Sample.disk /\
    load_local_config s Sample.config_path <> Loaded Sample.old_state /\
    load_local_config s Sample.config_path <> Loaded Sample.new_state /\
    load_local_config s Sample.config_path = JSONDecodeError.
Proof.
  exists (open_w Sample.config_path Sample.disk).
  split; [left|]. vm_compute. repeat split; discriminate.
Qed.

End LocalState.

(** ** Further properties of the network rate tracker *)

Section TrackerExtras.
Local Open Scope Q_scope.

(** What is at position [i] of the result is the loop body applied to the
    NIC at position [i], in some state of the loop. *)
Lemma update_loop_lookup_some (net_counters : gmap string Counters) (dt : Q)
    (l : list Nic) (acc : Acc) (i : nat) (nic : Nic) :
  l !! i = Some nic ->
  exists acc', (update_loop net_counters dt acc l).1 !! i
               = Some (update_nic net_counters dt acc' nic).1.
Proof.
  revert acc i. induction l as [|nic0 l IH]; intros acc i Hi; [done|].
  rewrite update_loop_cons. destruct i as [|i]; simpl in *.
  - exists acc. congruence.
  - apply IH, Hi.
Qed.

Lemma update_nic_cases (net_counters : gmap string Counters) (dt : Q)
    (acc : Acc) (nic : Nic) :
  match net_counters !! name nic with
  | None => update_nic net_counters dt acc nic = (nic, acc)
  | Some c =>
      exists nic',
        update_nic net_counters dt acc nic =
        (nic', {| acc_prev := <[name nic := {| rx := bytes_recv c; tx := bytes_sent c |}]>
                                (acc_prev acc);
                  total_rx := total_rx acc + rxMbps nic';
                  total_tx := total_tx acc + txMbps nic' |})
        /\ rate_ok (rxMbps nic') /\ rate_ok (txMbps nic')
  end.
Proof.
  unfold update_nic. destruct (net_counters !! name nic) as [c|]; [|reflexivity].
  eexists. split; [reflexivity|].
  destruct (Qlt_bool 0 dt), (acc_prev acc !! name nic); simpl;
    auto using rate_ok_0, rate_ok_round1_max.
Qed.

(** Sum of the rates of the NICs that have a current counter. *)
Lemma update_loop_totals_counted (net_counters : gmap string Counters) (dt : Q)
    (l : list Nic) (acc : Acc) :
  let r := update_loop net_counters dt acc l in
  let counted :=
    List.filter (fun nic => bool_decide (is_Some (net_counters !! nic.(name)))) r.1 in
  total_rx r.2 == total_rx acc + sum_rates rxMbps counted /\
  total_tx r.2 == total_tx acc + sum_rates txMbps counted /\
  (Num.tenth_valued (total_rx acc) -> Num.tenth_valued (total_rx r.2)) /\
  (Num.tenth_valued (total_tx acc) -> Num.tenth_valued (total_tx r.2)).
Proof.
  revert acc. induction l as [|nic l IH]; intros acc.
  - simpl. repeat split; auto; ring.
  - cbv zeta. rewrite update_loop_cons. cbn [fst snd List.filter].
    rewrite update_nic_name.
    destruct (IH (update_nic net_counters dt acc nic).2) as (I1 & I2 & I3 & I4).
    pose proof (update_nic_cases net_counters dt acc nic) as Hc.
    destruct (net_counters !! name nic) as [c|] eqn:Hlook.
    + destruct Hc as (nic' & E & [Hrx Trx] & [Htx Ttx]).
      rewrite E in I1, I2, I3, I4. rewrite E. simpl in I1, I2, I3, I4.
      cbn [fst snd].
      rewrite bool_decide_eq_true_2 by eauto. simpl.
      repeat split.
      * rewrite I1. ring.
      * rewrite I2. ring.
      * intros T. apply I3, tenth_valued_plus; assumption.
      * intros T. apply I4, tenth_valued_plus; assumption.
    + rewrite Hc in *. cbn [fst snd] in *.
      rewrite bool_decide_eq_false_2 by (intros [? ?]; discriminate).
      repeat split; auto.
Qed.

(** X1.  After [update], [_prev] holds the current counters under the
    name of every NIC of the snapshot that has counters; every other entry
    is the one it held before.  No entry is ever removed. *)
Theorem update_prev_entries (t : NetworkRateTracker) (s : Snapshot)
    (config : MonitorConfig) (net_counters : gmap string Counters) (now : Q)
    (n : string) :
  _prev (update t s config net_counters now).2 !! n =
  match net_counters !! n with
  | Some c =>
      if bool_decide (n ∈ name <$> nics s)
      then Some {| rx := bytes_recv c; tx := bytes_sent c |}
      else _prev t !! n
  | None => _prev t !! n
  end.
Proof. rewrite update_unfold. cbv zeta. simpl. apply update_loop_prev. Qed.

Lemma update_after_update (t : NetworkRateTracker) (s0 s1 : Snapshot)
    (config : MonitorConfig) (counters0 counters1 : gmap string Counters)
    (t0 t1 : Q) (nic' : Nic) (c0 c1 : Counters) :
  0 < t1 - t0 ->
  NoDup (name <$> nics s1) ->
  nic' ∈ nics (update (update t s0 config counters0 t0).2 s1 config counters1 t1).1 ->
  name nic' ∈ name <$> nics s0 ->
  counters0 !! name nic' = Some c0 ->
  counters1 !! name nic' = Some c1 ->
  rxMbps nic' =
    Num.round1 (Qmax 0 (inject_Z ((bytes_recv c1 - bytes_recv c0) * 8)
                        / ((t1 - t0) * 1000000))) /\
  txMbps nic' =
    Num.round1 (Qmax 0 (inject_Z ((bytes_sent c1 - bytes_sent c0) * 8)
                        / ((t1 - t0) * 1000000))).
Proof.
  intros Hdt Hnd Hin Hs0 Hc0 Hc1.
  set (tr := (update t s0 config counters0 t0).2) in *.
  assert (Hprev : _prev tr !! name nic'
                  = Some {| rx := bytes_recv c0; tx := bytes_sent c0 |}).
  { subst tr. rewrite update_unfold. cbv zeta. simpl.
    rewrite update_loop_prev, Hc0, bool_decide_eq_true_2 by exact Hs0.
    reflexivity. }
  assert (Htime : _prev_time tr = t0 /\ _initialized tr = true).
  { subst tr. rewrite update_unfold. cbv zeta. simpl. split; reflexivity. }
  destruct Htime as [Ht0 Hinit].
  destruct (update_elem _ _ _ _ _ _ Hnd Hin) as (nic & _ & ->).
  rewrite update_nic_name in Hprev, Hc1.
  assert (Hel : elapsed tr t1 = t1 - t0).
  { rewrite <- Ht0. apply elapsed_primed; [exact Hinit | rewrite Ht0; exact Hdt]. }
  rewrite Hel. unfold update_nic. rewrite Hc1. simpl. rewrite Hprev.
  rewrite (proj2 (Qlt_bool_iff 0 (t1 - t0)) Hdt). simpl.
  destruct (reported_rate (bytes_recv c1) (bytes_recv c0) (t1 - t0) Hdt) as (R1 & _).
  destruct (reported_rate (bytes_sent c1) (bytes_sent c0) (t1 - t0) Hdt) as (T1 & _).
  split; assumption.
Qed.

Lemma update_after_update_measured (t : NetworkRateTracker) (s0 s1 : Snapshot)
    (config : MonitorConfig) (counters0 counters1 : gmap string Counters)
    (t0 t1 : Q) (nic' : Nic) (c0 c1 : Counters) :
  0 < t1 - t0 ->
  NoDup (name <$> nics s1) ->
  nic' ∈ nics (update (update t s0 config counters0 t0).2 s1 config counters1 t1).1 ->
  name nic' ∈ name <$> nics s0 ->
  counters0 !! name nic' = Some c0 ->
  counters1 !! name nic' = Some c1 ->
  measured (rxMbps nic') (bytes_recv c1) (bytes_recv c0) (t1 - t0) /\
  measured (txMbps nic') (bytes_sent c1) (bytes_sent c0) (t1 - t0).
Proof.
  intros Hdt Hnd Hin Hs0 Hc0 Hc1.
  destruct (update_after_update t s0 s1 config counters0 counters1 t0 t1 nic' c0 c1
              Hdt Hnd Hin Hs0 Hc0 Hc1) as [-> ->].
  destruct (reported_rate (bytes_recv c1) (bytes_recv c0) (t1 - t0) Hdt) as (R1 & _).
  destruct (reported_rate (bytes_sent c1) (bytes_sent c0) (t1 - t0) Hdt) as (T1 & _).
  cbv zeta in R1, T1. rewrite <- R1, <- T1.
  split.
  - apply (reported_rate_tolerance (bytes_recv c1) (bytes_recv c0) (t1 - t0) Hdt).
  - apply (reported_rate_tolerance (bytes_sent c1) (bytes_sent c0) (t1 - t0) Hdt).
Qed.

(** X2.  Two updates in a row, the second one later than the first: a NIC
    of the second snapshot that was in the first snapshot and had counters
    both times is reported with the rate of the bytes counted between the
    two calls over the time between them (within the tolerance of a
    report, never negative, 0 when the counter went down), whatever state
    the tracker was in before the first call, a fresh tracker included. *)
Theorem update_twice_rate (t : NetworkRateTracker) (s0 s1 : Snapshot)
    (config : MonitorConfig) (counters0 counters1 : gmap string Counters)
    (t0 t1 : Q) (nic' : Nic) (c0 c1 : Counters) :
  0 < t1 - t0 ->
  NoDup (name <$> nics s1) ->
  nic' ∈ nics (update (update t s0 config counters0 t0).2 s1 config counters1 t1).1 ->
  name nic' ∈ name <$> nics s0 ->
  counters0 !! name nic' = Some c0 ->
  counters1 !! name nic' = Some c1 ->
  measured (rxMbps nic') (bytes_recv c1) (bytes_recv c0) (t1 - t0) /\
  measured (txMbps nic') (bytes_sent c1) (bytes_sent c0) (t1 - t0).
Proof. apply update_after_update_measured. Qed.

Lemma update_twice_rate_witness :
  let nic' := {| name := Sample.eth0; ipv4 := "10.0.0.5";
                 rxMbps := 100 # 10; txMbps := 0 # 10 |} in
  measured (rxMbps nic') 3500000 1000000 (102 - 100) /\
  measured (txMbps nic') 4000 5000000 (102 - 100).
Proof.
  apply (update_twice_rate new_tracker Sample.snapshot0 Sample.snapshot0 empty_config
           Sample.counters_t0 Sample.counters_t2 100 102
           {| name := Sample.eth0; ipv4 := "10.0.0.5";
              rxMbps := 100 # 10; txMbps := 0 # 10 |}
           {| bytes_sent := 5000000; bytes_recv := 1000000 |}
           {| bytes_sent := 4000; bytes_recv := 3500000 |}).
  - reflexivity.
  - vm_compute. repeat constructor. inversion 1.
  - vm_compute. left.
  - vm_compute. left.
  - reflexivity.
  - reflexivity.
Defined.

(** X3.  For any snapshot, whatever rates its NICs carry on entry: a NIC
    for which psutil has no counters is left exactly as it was, and the
    two totals are the sums of the rates of the NICs that do have
    counters. *)
Theorem update_counts_only_sampled (t : NetworkRateTracker) (s : Snapshot)
    (config : MonitorConfig) (net_counters : gmap string Counters) (now : Q) :
  let s' := (update t s config net_counters now).1 in
  let sampled :=
    List.filter (fun nic => bool_decide (is_Some (net_counters !! nic.(name))))
                (nics s') in
  (forall i nic, nics s !! i = Some nic -> net_counters !! name nic = None ->
                 nics s' !! i = Some nic) /\
  networkRxMbps s' == sum_rates rxMbps sampled /\
  networkTxMbps s' == sum_rates txMbps sampled.
Proof.
  rewrite update_unfold. cbv zeta. simpl. split.
  - intros i nic Hi Hnone.
    destruct (update_loop_lookup_some net_counters (elapsed t now) (nics s)
                {| acc_prev := _prev t; total_rx := 0; total_tx := 0 |} i nic Hi)
      as [acc' ->].
    unfold update_nic. rewrite Hnone. reflexivity.
  - destruct (update_loop_totals_counted net_counters (elapsed t now) (nics s)
                {| acc_prev := _prev t; total_rx := 0; total_tx := 0 |})
      as (I1 & I2 & I3 & I4).
    simpl in *. split.
    + rewrite round1_tenth by (apply I3, tenth_valued_0). rewrite I1. ring.
    + rewrite round1_tenth by (apply I4, tenth_valued_0). rewrite I2. ring.
Qed.

End TrackerExtras.

(** ** NICs in snapshots and capabilities *)

Section NicListing.

Lemma collect_nics_elem (nic_names_cfg : option (list string))
    (nic_addrs : gmap string (list Addr)) (items : list (string * Counters))
    (nic : Nic) :
  nic ∈ collect_nics nic_names_cfg nic_addrs items <->
  name nic ∈ items.*1
  /\ name nic <> "lo"%string
  /\ filtered_out nic_names_cfg (name nic) = false
  /\ nic = {| name := name nic; ipv4 := lookup_ipv4 nic_addrs (name nic);
              rxMbps := 0; txMbps := 0 |}.
Proof.
  induction items as [|[n c] items IH]; simpl.
  - split; [intros H; inversion H | intros (H & _); inversion H].
  - destruct (bool_decide (n = "lo"%string)) eqn:Elo.
    { apply bool_decide_eq_true in Elo. rewrite IH. split.
      - intros (H1 & H2 & H3 & H4). repeat split; auto. right. exact H1.
      - intros (H1 & H2 & H3 & H4). repeat split; auto.
        apply elem_of_cons in H1 as [H1|H1]; [congruence | exact H1]. }
    apply bool_decide_eq_false in Elo.
    destruct (filtered_out nic_names_cfg n) eqn:Ef.
    { rewrite IH. split.
      - intros (H1 & H2 & H3 & H4). repeat split; auto. right. exact H1.
      - intros (H1 & H2 & H3 & H4). repeat split; auto.
        apply elem_of_cons in H1 as [H1|H1]; [congruence | exact H1]. }
    rewrite elem_of_cons, IH. split.
    + intros [->|(H1 & H2 & H3 & H4)]; simpl.
      * repeat split; auto. left.
      * repeat split; auto. right. exact H1.
    + intros (H1 & H2 & H3 & H4).
      apply elem_of_cons in H1 as [H1|H1].
      * left. rewrite H4, H1. reflexivity.
      * right. repeat split; auto.
Qed.

Lemma collect_snapshot_nics_iff (config : MonitorConfig)
    (net_counters : gmap string Counters) (nic_addrs : gmap string (list Addr))
    (nic : Nic) :
  nic ∈ nics (collect_snapshot config net_counters nic_addrs) <->
  is_Some (net_counters !! name nic)
  /\ name nic <> "lo"%string
  /\ (forall l, nicNames config = Some l -> name nic ∈ l)
  /\ nic = {| name := name nic; ipv4 := lookup_ipv4 nic_addrs (name nic);
              rxMbps := 0; txMbps := 0 |}.
Proof.
  unfold collect_snapshot. simpl. rewrite collect_nics_elem.
  assert (Hdom : name nic ∈ (map_to_list net_counters).*1
                 <-> is_Some (net_counters !! name nic)).
  { rewrite list_elem_of_fmap. split.
    - intros ([n c] & Hn & Hin). simpl in Hn. subst n.
      apply elem_of_map_to_list in Hin. eauto.
    - intros [c Hc]. exists (name nic, c). split; [reflexivity|].
      apply elem_of_map_to_list. exact Hc. }
  assert (Hf : filtered_out (nicNames config) (name nic) = false
               <-> forall l, nicNames config = Some l -> name nic ∈ l).
  { unfold filtered_out. destruct (nicNames config) as [l|].
    - rewrite negb_false_iff, bool_decide_eq_true. split.
      + intros H l' Hl'. congruence.
      + intros H. apply H. reflexivity.
    - split; [intros _ l Hl; discriminate | reflexivity]. }
  rewrite Hdom, Hf. reflexivity.
Qed.

(** X4.  The NICs of a snapshot are exactly the interfaces psutil has
    counters for, other than ["lo"], that pass the [nicNames] filter of
    the config (no filter when the key is absent); each carries the
    placeholder rates 0 and the IPv4 address looked up for its name. *)
Theorem snapshot_nics_listed (config : MonitorConfig)
    (net_counters : gmap string Counters) (nic_addrs : gmap string (list Addr))
    (nic : Nic) :
  nic ∈ nics (collect_snapshot config net_counters nic_addrs) <->
  is_Some (net_counters !! name nic)
  /\ name nic <> "lo"%string
  /\ (forall l, nicNames config = Some l -> name nic ∈ l)
  /\ nic = {| name := name nic; ipv4 := lookup_ipv4 nic_addrs (name nic);
              rxMbps := 0; txMbps := 0 |}.
Proof. apply collect_snapshot_nics_iff. Qed.

(** The address loop: the first [AF_INET] entry decides. *)
Lemma first_ipv4_none (addr_list : list Addr) :
  Forall (fun a => family a <> AF_INET) addr_list ->
  first_ipv4 addr_list = EmptyString.
Proof.
  induction 1 as [|a l Ha _ IH]; simpl; [reflexivity|].
  destruct (decide (family a = AF_INET)); [contradiction | exact IH].
Qed.

Lemma first_ipv4_first (pre post : list Addr) (a : Addr) :
  Forall (fun a => family a <> AF_INET) pre ->
  family a = AF_INET ->
  first_ipv4 (pre ++ a :: post) = address a.
Proof.
  induction 1 as [|b l Hb _ IH]; simpl; intros Ha.
  - destruct (decide (family a = AF_INET)); [reflexivity | contradiction].
  - destruct (decide (family b = AF_INET)); [contradiction | auto].
Qed.

(** X5.  An interface with counters and without any IPv4 address (no
    entry in [net_if_addrs], or only addresses of other families) is
    still listed in the snapshot, with the empty string as [ipv4]; when it
    has IPv4 addresses the first one is reported. *)
Theorem collect_snapshot_ipv4 (config : MonitorConfig)
    (net_counters : gmap string Counters) (nic_addrs : gmap string (list Addr))
    (n : string) :
  is_Some (net_counters !! n) ->
  n <> "lo"%string ->
  (forall l, nicNames config = Some l -> n ∈ l) ->
  ((nic_addrs !! n = None
    \/ exists addr_list, nic_addrs !! n = Some addr_list
                         /\ Forall (fun a => family a <> AF_INET) addr_list) ->
   {| name := n; ipv4 := EmptyString; rxMbps := 0; txMbps := 0 |}
   ∈ nics (collect_snapshot config net_counters nic_addrs)) /\
  (forall pre a post,
     nic_addrs !! n = Some (pre ++ a :: post) ->
     Forall (fun a => family a <> AF_INET) pre ->
     family a = AF_INET ->
     {| name := n; ipv4 := address a; rxMbps := 0; txMbps := 0 |}
     ∈ nics (collect_snapshot config net_counters nic_addrs)).
Proof.
  intros Hc Hlo Hf. split.
  - intros Hno. apply collect_snapshot_nics_iff. simpl.
    repeat split; auto. f_equal. unfold lookup_ipv4.
    destruct Hno as [->|(l & -> & Hl)]; [reflexivity|].
    symmetry. apply first_ipv4_none, Hl.
  - intros pre a post Hl Hpre Ha. apply collect_snapshot_nics_iff. simpl.
    repeat split; auto. f_equal. unfold lookup_ipv4. rewrite Hl.
    symmetry. apply first_ipv4_first; assumption.
Qed.

Lemma collect_snapshot_ipv4_witness :
  {| name := "lo0"; ipv4 := EmptyString; rxMbps := 0; txMbps := 0 |}
  ∈ nics (collect_snapshot empty_config
            {[ "lo0"%string := {| bytes_sent := 1; bytes_recv := 2 |} ]}
            Sample.addrs).
Proof.
  apply (proj1 (collect_snapshot_ipv4 empty_config
                  {[ "lo0"%string := {| bytes_sent := 1; bytes_recv := 2 |} ]}
                  Sample.addrs "lo0" ltac:(vm_compute; eauto) ltac:(discriminate)
                  ltac:(intros l Hl; discriminate Hl))).
  left. reflexivity.
Defined.

End NicListing.

(** ** Monotonicity of the rounding *)

Section RoundingOrder.
Local Open Scope Q_scope.

Lemma round_half_even_bounds (x : Q) :
  (Qfloor x <= Num.round_half_even x <= Qfloor x + 1)%Z.
Proof.
  unfold Num.round_half_even.
  destruct (_ ?= _); [destruct (Z.even _)| |]; lia.
Qed.

Lemma round_half_even_mono (x y : Q) :
  x <= y -> (Num.round_half_even x <= Num.round_half_even y)%Z.
Proof.
  intros Hxy.
  pose proof (Qfloor_resp_le _ _ Hxy) as Hf.
  pose proof (round_half_even_bounds x) as Bx.
  pose proof (round_half_even_bounds y) as By.
  destruct (Z.eq_dec (Qfloor x) (Qfloor y)) as [E|NE]; [|lia].
  clear Bx By Hf. unfold Num.round_half_even. rewrite E.
  destruct (x - inject_Z (Qfloor y) ?= 1 # 2) eqn:Cx;
    destruct (y - inject_Z (Qfloor y) ?= 1 # 2) eqn:Cy;
    try (destruct (Z.even (Qfloor y)); lia); try lia; exfalso;
    first [ apply (proj1 (Qcompare_Eq_iff _ _)) in Cx
          | apply (proj1 (Qcompare_Lt_iff _ _)) in Cx
          | apply (proj1 (Qcompare_Gt_iff _ _)) in Cx ];
    first [ apply (proj1 (Qcompare_Eq_iff _ _)) in Cy
          | apply (proj1 (Qcompare_Lt_iff _ _)) in Cy
          | apply (proj1 (Qcompare_Gt_iff _ _)) in Cy ];
    generalize dependent (inject_Z (Qfloor y)); intros; lra.
Qed.

Lemma round1_mono (x y : Q) : x <= y -> Num.round1 x <= Num.round1 y.
Proof.
  intros Hxy. unfold Num.round1.
  assert (H : (Num.round_half_even (x * 10) <= Num.round_half_even (y * 10))%Z).
  { apply round_half_even_mono. lra. }
  unfold Qle. simpl. lia.
Qed.

Lemma bytes_ratio_mono (a b : Z) (d : Z) :
  (0 < d)%Z -> (a <= b)%Z -> inject_Z a / inject_Z d <= inject_Z b / inject_Z d.
Proof.
  intros Hd Hab. unfold Qdiv. apply Qmult_le_compat_r.
  - rewrite <- Zle_Qle. exact Hab.
  - apply Qlt_le_weak, Qinv_lt_0_compat.
    change 0 with (inject_Z 0). rewrite <- Zlt_Qlt. exact Hd.
Qed.

Lemma bytes_to_GB_mono (a b : Z) : (a <= b)%Z -> bytes_to_GB a <= bytes_to_GB b.
Proof.
  intros Hab. unfold bytes_to_GB. apply round1_mono, bytes_ratio_mono; [|exact Hab].
  reflexivity.
Qed.

Lemma bytes_to_GB_0 : bytes_to_GB 0 = 0 # 10.
Proof. reflexivity. Qed.

Lemma bytes_to_MB_mono (a b : Z) : (a <= b)%Z -> (bytes_to_MB a <= bytes_to_MB b)%Z.
Proof.
  intros Hab. unfold bytes_to_MB.
  apply round_half_even_mono, bytes_ratio_mono; [|exact Hab]. reflexivity.
Qed.

End RoundingOrder.

(** ** Capabilities against snapshots *)

Section Discovery.
Local Open Scope Q_scope.

Lemma discover_nics_elem (items : list (string * list Addr)) (nic : Caps.Nic) :
  nic ∈ discover_nics items <->
  exists addr_list,
    (Caps.name nic, addr_list) ∈ items
    /\ Caps.name nic <> "lo"%string
    /\ Caps.ipv4 nic = first_ipv4 addr_list
    /\ Caps.ipv4 nic <> EmptyString.
Proof.
  induction items as [|[n l] items IH]; simpl.
  - split; [intros H; inversion H | intros (l & H & _); inversion H].
  - destruct (bool_decide (n = "lo"%string)) eqn:Elo.
    { apply bool_decide_eq_true in Elo. rewrite IH. split.
      - intros (al & H1 & H2). exists al. split; [right; exact H1 | exact H2].
      - intros (al & H1 & H2 & H3). exists al. split; [|auto].
        apply elem_of_cons in H1 as [H1|H1]; [|exact H1].
        inversion H1. congruence. }
    apply bool_decide_eq_false in Elo.
    destruct (bool_decide (first_ipv4 l <> EmptyString)) eqn:Eip.
    + apply bool_decide_eq_true in Eip. rewrite elem_of_cons, IH. split.
      * intros [->|(al & H1 & H2)].
        -- exists l. simpl. repeat split; auto. left.
        -- exists al. split; [right; exact H1 | exact H2].
      * intros (al & H1 & H2 & H3 & H4).
        apply elem_of_cons in H1 as [H1|H1].
        -- left. inversion H1; subst. destruct nic; simpl in *. congruence.
        -- right. exists al. auto.
    + apply bool_decide_eq_false in Eip. rewrite IH. split.
      * intros (al & H1 & H2). exists al. split; [right; exact H1 | exact H2].
      * intros (al & H1 & H2 & H3 & H4). exists al. split; [|auto].
        apply elem_of_cons in H1 as [H1|H1]; [|exact H1].
        inversion H1; subst. exfalso. apply Eip. intros E. apply H4. congruence.
Qed.

(** X6.  The NICs of the capabilities are exactly the interfaces other
    than ["lo"] whose first [AF_INET] address exists and is not empty;
    that address is the one listed.  An interface without IPv4 address is
    left out of the capabilities. *)
Theorem discover_nics_listed (items : list (string * list Addr)) (nic : Caps.Nic) :
  nic ∈ discover_nics items <->
  exists addr_list,
    (Caps.name nic, addr_list) ∈ items
    /\ Caps.name nic <> "lo"%string
    /\ Caps.ipv4 nic = first_ipv4 addr_list
    /\ Caps.ipv4 nic <> EmptyString.
Proof. apply discover_nics_elem. Qed.

(** X7.  With the same answer of [net_if_addrs], a NIC of the
    capabilities that has counters and passes the [nicNames] filter is in
    the snapshot under the same name and with the same IPv4 address. *)
Theorem discovered_nic_in_snapshot (config : MonitorConfig)
    (net_counters : gmap string Counters) (nic_addrs : gmap string (list Addr))
    (nic : Caps.Nic) :
  nic ∈ discover_nics (map_to_list nic_addrs) ->
  is_Some (net_counters !! Caps.name nic) ->
  (forall l, nicNames config = Some l -> Caps.name nic ∈ l) ->
  {| name := Caps.name nic; ipv4 := Caps.ipv4 nic; rxMbps := 0; txMbps := 0 |}
  ∈ nics (collect_snapshot config net_counters nic_addrs).
Proof.
  intros (al & Hin & Hlo & Hip & _)%discover_nics_elem Hc Hf.
  apply elem_of_map_to_list in Hin.
  apply collect_snapshot_nics_iff. simpl. repeat split; auto.
  f_equal. unfold lookup_ipv4. rewrite Hin. exact Hip.
Qed.

Lemma discovered_nic_in_snapshot_witness :
  {| name := Sample.eth0; ipv4 := "10.0.0.5"; rxMbps := 0; txMbps := 0 |}
  ∈ nics (collect_snapshot Sample.config30 Sample.counters_t0 Sample.addrs).
Proof.
  apply (discovered_nic_in_snapshot Sample.config30 Sample.counters_t0 Sample.addrs
           {| Caps.name := Sample.eth0; Caps.ipv4 := "10.0.0.5" |}).
  - vm_compute. left.
  - vm_compute. eauto.
  - intros l Hl. inversion Hl. left.
Defined.

Lemma collect_disks_elem (disk_mounts : option (list string))
    (usage : gmap string DiskUsage) (parts : list Partition) (d : Disk) :
  d ∈ collect_disks disk_mounts usage parts <->
  exists part u,
    part ∈ parts
    /\ pseudo_fs (fstype part) = false
    /\ mount_filtered_out disk_mounts (mountpoint part) = false
    /\ usage !! mountpoint part = Some u
    /\ d = {| mount := mountpoint part;
              totalGB := bytes_to_GB (du_total u);
              usedGB := bytes_to_GB (du_used u) |}.
Proof.
  induction parts as [|p parts IH]; simpl.
  - split; [intros H; inversion H | intros (q & u & H & _); inversion H].
  - assert (Hskip :
      (pseudo_fs (fstype p) = true \/ mount_filtered_out disk_mounts (mountpoint p) = true
       \/ usage !! mountpoint p = None) ->
      (d ∈ collect_disks disk_mounts usage parts <->
       exists part u, part ∈ p :: parts /\ pseudo_fs (fstype part) = false
         /\ mount_filtered_out disk_mounts (mountpoint part) = false
         /\ usage !! mountpoint part = Some u
         /\ d = {| mount := mountpoint part; totalGB := bytes_to_GB (du_total u);
                   usedGB := bytes_to_GB (du_used u) |})).
    { intros Hs. rewrite IH. split.
      - intros (q & u & H1 & H2). exists q, u. split; [right; exact H1 | exact H2].
      - intros (q & u & H1 & H2 & H3 & H4 & H5).
        apply elem_of_cons in H1 as [->|H1]; [|exists q, u; auto].
        destruct Hs as [Hs|[Hs|Hs]]; congruence. }
    destruct (pseudo_fs (fstype p)) eqn:E1; [apply Hskip; auto|].
    destruct (mount_filtered_out disk_mounts (mountpoint p)) eqn:E2; [apply Hskip; auto|].
    destruct (usage !! mountpoint p) as [u0|] eqn:E3; [|apply Hskip; auto].
    rewrite elem_of_cons, IH. split.
    + intros [->|(q & u & H1 & H2)].
      * exists p, u0. repeat split; auto. left.
      * exists q, u. split; [right; exact H1 | exact H2].
    + intros (q & u & H1 & H2 & H3 & H4 & H5).
      apply elem_of_cons in H1 as [->|H1].
      * left. rewrite H5. congruence.
      * right. exists q, u. auto.
Qed.

(** X8.  The disks of a snapshot are exactly the partitions that are not
    on a pseudo file system ([squashfs], [tmpfs], [devtmpfs], [overlay]),
    that pass the [diskMounts] filter of the config, and whose usage can
    be read; a partition whose usage raises [PermissionError] is left out
    and the others are still listed. *)
Theorem collect_disks_listed (disk_mounts : option (list string))
    (usage : gmap string DiskUsage) (parts : list Partition) (d : Disk) :
  d ∈ collect_disks disk_mounts usage parts <->
  exists part u,
    part ∈ parts
    /\ (fstype part ∉ ["squashfs"; "tmpfs"; "devtmpfs"; "overlay"]%string)
    /\ (forall l, disk_mounts = Some l -> mountpoint part ∈ l)
    /\ usage !! mountpoint part = Some u
    /\ d = {| mount := mountpoint part;
              totalGB := bytes_to_GB (du_total u);
              usedGB := bytes_to_GB (du_used u) |}.
Proof.
  rewrite collect_disks_elem.
  assert (Hp : forall part, pseudo_fs (fstype part) = false
      <-> fstype part ∉ ["squashfs"; "tmpfs"; "devtmpfs"; "overlay"]%string).
  { intros part. unfold pseudo_fs. apply bool_decide_eq_false. }
  assert (Hf : forall part, mount_filtered_out disk_mounts (mountpoint part) = false
      <-> forall l, disk_mounts = Some l -> mountpoint part ∈ l).
  { intros part. unfold mount_filtered_out. destruct disk_mounts as [l|].
    - rewrite negb_false_iff, bool_decide_eq_true. split.
      + intros H l' Hl'. congruence.
      + intros H. apply H. reflexivity.
    - split; [intros _ l Hl; discriminate | reflexivity]. }
  split; intros (part & u & H1 & H2 & H3 & H4 & H5); exists part, u;
    (split; [exact H1|]); (split; [apply Hp, H2|]);
    (split; [apply Hf, H3|]); auto.
Qed.

(** X9.  With the same partitions and usages, every disk of a snapshot is
    a disk of the capabilities, with the same mount point and total size;
    without a [diskMounts] filter the two lists correspond entry by
    entry. *)
Theorem collect_disks_discovered (disk_mounts : option (list string))
    (usage : gmap string DiskUsage) (parts : list Partition) :
  (forall d, d ∈ collect_disks disk_mounts usage parts ->
             disk_spec d ∈ discover_disks usage parts) /\
  disk_spec <$> collect_disks None usage parts = discover_disks usage parts.
Proof.
  split.
  - induction parts as [|p parts IH]; simpl; intros d Hd; [inversion Hd|].
    destruct (pseudo_fs (fstype p)); [auto|].
    destruct (usage !! mountpoint p) as [u|] eqn:Hu.
    + destruct (mount_filtered_out disk_mounts (mountpoint p)).
      * right. auto.
      * apply elem_of_cons in Hd as [->|Hd]; [left | right; auto].
    + destruct (mount_filtered_out disk_mounts (mountpoint p)); auto.
  - induction parts as [|p parts IH]; simpl; [reflexivity|].
    destruct (pseudo_fs (fstype p)); [exact IH|].
    destruct (usage !! mountpoint p) as [u|]; [|exact IH].
    rewrite fmap_cons, IH. reflexivity.
Qed.

(** X10.  When every readable usage has [0 <= used <= total], every disk
    of a snapshot is reported with [0 <= usedGB <= totalGB]: rounding to
    one decimal keeps the order. *)
Theorem disk_used_within_total (disk_mounts : option (list string))
    (usage : gmap string DiskUsage) (parts : list Partition) (d : Disk) :
  (forall m u, usage !! m = Some u -> (0 <= du_used u <= du_total u)%Z) ->
  d ∈ collect_disks disk_mounts usage parts ->
  0 <= usedGB d /\ usedGB d <= totalGB d.
Proof.
  intros Hu (part & u & _ & _ & _ & Hlook & ->)%collect_disks_elem. simpl.
  destruct (Hu _ _ Hlook) as [H0 H1]. split.
  - change 0 with (0 # 1). apply Qle_trans with (bytes_to_GB 0).
    + rewrite bytes_to_GB_0. unfold Qle. simpl. lia.
    + apply bytes_to_GB_mono, H0.
  - apply bytes_to_GB_mono, H1.
Qed.

Lemma disk_used_within_total_witness :
  let d := {| mount := "/"; totalGB := 1000 # 10; usedGB := 500 # 10 |} in
  0 <= usedGB d /\ usedGB d <= totalGB d.
Proof.
  apply (disk_used_within_total (Some ["/"%string; "/root"%string])
           Sample.usages Sample.partitions
           {| mount := "/"; totalGB := 1000 # 10; usedGB := 500 # 10 |}).
  - apply (map_Forall_to_list (fun _ u => (0 <= du_used u <= du_total u)%Z)).
    vm_compute. repeat constructor; discriminate.
  - vm_compute. left.
Defined.

End Discovery.

(** ** GPUs *)

Section Gpus.

Variable gpu_indices : option (list Z).

Lemma increasing_from_weaken (l : list Z) (lo lo' : Z) :
  lo <= lo' -> increasing_from lo' l -> increasing_from lo l.
Proof. destruct l as [|x l]; simpl; [auto|]. intros H [H1 H2]. split; [lia | exact H2]. Qed.

Lemma collect_gpus_from_spec (devices : list (option GpuDevice)) (i : Z) :
  let l := collect_gpus_from gpu_indices i devices in
  increasing_from i (index <$> l) /\
  Forall (fun g =>
            i <= index g
            /\ gpu_filtered_out gpu_indices (index g) = false
            /\ exists dev, devices !! Z.to_nat (index g - i) = Some (Some dev)
                           /\ g = gpu_entry (index g) dev) l.
Proof.
  revert i. induction devices as [|d devices IH]; intros i; simpl.
  - split; [exact I | constructor].
  - destruct (IH (i + 1)) as [Hinc Hall].
    assert (Hshift : Forall (fun g =>
              i <= index g
              /\ gpu_filtered_out gpu_indices (index g) = false
              /\ exists dev, (d :: devices) !! Z.to_nat (index g - i) = Some (Some dev)
                             /\ g = gpu_entry (index g) dev)
              (collect_gpus_from gpu_indices (i + 1) devices)).
    { eapply Forall_impl; [exact Hall|]. intros g (H1 & H2 & dev & H3 & H4).
      split; [lia|]. split; [exact H2|]. exists dev. split; [|exact H4].
      replace (Z.to_nat (index g - i)) with (S (Z.to_nat (index g - (i + 1)))) by lia.
      exact H3. }
    destruct (gpu_filtered_out gpu_indices i) eqn:Ef.
    + split; [|exact Hshift]. apply (increasing_from_weaken _ i (i + 1)); [lia | exact Hinc].
    + destruct d as [dev|]; [|split; [exact I | constructor]].
      rewrite fmap_cons. simpl. split; [split; [lia | exact Hinc]|].
      constructor; [|exact Hshift]. simpl.
      split; [lia|]. split; [exact Ef|]. exists dev.
      rewrite Z.sub_diag. split; reflexivity.
Qed.

(** X11.  The GPUs of a snapshot come in strictly increasing index order
    starting at 0 or later; each one is the entry of an NVML device that
    answered, at its own index, and its index is in [gpuIndices] when the
    config has that key.  Without NVML, with [--nogpu], or when NVML
    cannot be initialised the list is empty. *)
Theorem collect_gpus_indices (HAS_NVML skip_gpu : bool)
    (nvml : option (list (option GpuDevice))) :
  let l := collect_gpus HAS_NVML skip_gpu nvml gpu_indices in
  increasing_from 0 (index <$> l) /\
  Forall (fun g =>
            (forall idx, gpu_indices = Some idx -> index g ∈ idx)
            /\ exists devices dev,
                 nvml = Some devices /\ 0 <= index g
                 /\ devices !! Z.to_nat (index g) = Some (Some dev)
                 /\ g = gpu_entry (index g) dev) l /\
  (HAS_NVML = false \/ skip_gpu = true \/ nvml = None -> l = []).
Proof.
  unfold collect_gpus. cbv zeta.
  destruct HAS_NVML, skip_gpu; simpl;
    try (split; [exact I|]; split; [constructor | reflexivity]).
  destruct nvml as [devices|];
    [|split; [exact I|]; split; [constructor | reflexivity]].
  destruct (collect_gpus_from_spec devices 0) as [Hinc Hall].
  split; [exact Hinc|]. split.
  - eapply Forall_impl; [exact Hall|]. intros g (H1 & H2 & dev & H3 & H4).
    split.
    + intros idx Hidx. unfold gpu_filtered_out in H2. rewrite Hidx in H2.
      apply negb_false_iff, bool_decide_eq_true in H2. exact H2.
    + exists devices, dev. rewrite Z.sub_0_r in H3. auto.
  - intros [H|[H|H]]; discriminate.
Qed.

(** X12.  A device that is not excluded by [gpuIndices] and whose query
    raises [NVMLError] ends the loop: the GPUs before it are kept and all
    later ones are missing from the snapshot.  A device that is excluded
    is not queried, so its state does not matter. *)
Theorem collect_gpus_error (i : Z) (pre post : list (option GpuDevice)) :
  (gpu_filtered_out gpu_indices (i + Z.of_nat (length pre)) = false ->
   collect_gpus_from gpu_indices i (pre ++ None :: post)
   = collect_gpus_from gpu_indices i pre) /\
  (gpu_filtered_out gpu_indices (i + Z.of_nat (length pre)) = true ->
   forall d d',
     collect_gpus_from gpu_indices i (pre ++ d :: post)
     = collect_gpus_from gpu_indices i (pre ++ d' :: post)).
Proof.
  revert i. induction pre as [|p pre IH]; intros i; cbn [app length collect_gpus_from].
  - rewrite Z.add_0_r. split; intros ->; reflexivity.
  - replace (i + Z.of_nat (S (length pre)))
      with (i + 1 + Z.of_nat (length pre)) by lia.
    destruct (IH (i + 1)) as [IH1 IH2]. split.
    + intros Hf. rewrite (IH1 Hf). reflexivity.
    + intros Hf d d'. rewrite (IH2 Hf d d'). reflexivity.
Qed.

End Gpus.

Section GpuDiscovery.

Lemma collect_gpus_from_agree (dd dc : list (option GpuDevice)) (i : Z) :
  Forall2 answers_agree dd dc ->
  (gpu_spec <$> collect_gpus_from None i dc) `prefix_of` discover_gpus_from i dd /\
  (Forall is_Some dc ->
   gpu_spec <$> collect_gpus_from None i dc = discover_gpus_from i dd).
Proof.
  intros H. revert i. induction H as [|d c dd dc Hdc _ IH]; intros i.
  - split; [apply prefix_nil | reflexivity].
  - destruct (IH (i + 1)) as [IH1 IH2]. cbn [collect_gpus_from]. simpl.
    destruct c as [dev|].
    + destruct Hdc as (dev' & -> & Hn & Hm). rewrite fmap_cons. cbn [discover_gpus_from].
      assert (E : gpu_spec (gpu_entry i dev)
                  = {| Caps.index := i; Caps.gpu_name := dev_name dev';
                       Caps.memoryTotalMB := bytes_to_MB (dev_mem_total dev') |}).
      { unfold gpu_spec, gpu_entry. simpl. rewrite Hn, Hm. reflexivity. }
      rewrite E. split.
      * apply prefix_cons, IH1.
      * intros Hall. apply Forall_cons in Hall as [_ Hall]. f_equal. apply IH2, Hall.
    + split; [apply prefix_nil|].
      intros Hall. apply Forall_cons in Hall as [[? Hn] _]. discriminate.
Qed.

(** X13.  Without a [gpuIndices] filter, and with NVML answers that agree
    between the two calls, the GPUs of a snapshot are the first GPUs of
    the capabilities, entry by entry (same index, same name, same total
    memory): a device that fails a query of [collect_snapshot], the
    utilisation query for instance, cuts the snapshot list short while
    the capabilities may list it and the devices after it.  When every
    device answers [collect_snapshot] the two lists are the same. *)
Theorem collect_gpus_discovered (HAS_NVML skip_gpu : bool)
    (dd dc : list (option GpuDevice)) :
  Forall2 answers_agree dd dc ->
  (gpu_spec <$> collect_gpus HAS_NVML skip_gpu (Some dc) None)
    `prefix_of` discover_gpus HAS_NVML skip_gpu (Some dd) /\
  (Forall is_Some dc ->
   gpu_spec <$> collect_gpus HAS_NVML skip_gpu (Some dc) None
   = discover_gpus HAS_NVML skip_gpu (Some dd)).
Proof.
  intros H. unfold collect_gpus, discover_gpus.
  destruct (HAS_NVML && negb skip_gpu).
  - apply collect_gpus_from_agree, H.
  - split; [apply prefix_nil | reflexivity].
Qed.

Lemma collect_gpus_discovered_witness :
  (gpu_spec <$> collect_gpus true false (Some [Some Sample.gpu0; None]) None)
    `prefix_of` discover_gpus true false (Some [Some Sample.gpu0; Some Sample.gpu1]).
Proof.
  apply (collect_gpus_discovered true false
           [Some Sample.gpu0; Some Sample.gpu1] [Some Sample.gpu0; None]).
  repeat constructor. exists Sample.gpu0. repeat split.
Defined.

(** X14.  A GPU whose temperature or power query raises [NVMLError] is
    still listed, with 0 in that field; power readings in milliwatts are
    reported in whole watts, and used memory never exceeds total memory
    after the conversion to MB when it did not before. *)
Theorem gpu_entry_fields (i : Z) (dev : GpuDevice) :
  (dev_temp dev = None -> temperatureC (gpu_entry i dev) = 0) /\
  (dev_power_draw dev = None -> powerDrawW (gpu_entry i dev) = 0) /\
  (dev_power_limit dev = None -> powerLimitW (gpu_entry i dev) = 0) /\
  (forall mw, dev_power_draw dev = Some mw ->
     (Qabs (inject_Z (powerDrawW (gpu_entry i dev)) - inject_Z mw / 1000) <= 1 # 2)%Q) /\
  (dev_mem_used dev <= dev_mem_total dev ->
   memoryUsedMB (gpu_entry i dev) <= memoryTotalMB (gpu_entry i dev)).
Proof.
  unfold gpu_entry, watts. simpl.
  split; [intros ->; reflexivity|].
  split; [intros ->; reflexivity|].
  split; [intros ->; reflexivity|].
  split; [intros mw ->; apply round_half_even_error|].
  apply bytes_to_MB_mono.
Qed.

End GpuDiscovery.

(** ** The local state file and registration *)

Section Registration.

(** X15.  The state file behaves as one slot per path: a save replaces
    whatever an earlier save wrote, files under other paths are not
    affected, and loading a path that does not exist gives the empty
    state. *)
Theorem save_last_write_wins (path : string) (d1 d2 : LocalConfig)
    (fs : gmap string FileContent) :
  save_local_config path d2 (save_local_config path d1 fs)
  = save_local_config path d2 fs /\
  (forall other, other <> path ->
     load_local_config (save_local_config path d1 fs) other
     = load_local_config fs other) /\
  (fs !! path = None ->
   load_local_config fs path = Loaded {| token := None; server := None |}).
Proof.
  unfold save_local_config, dump_close, open_w, load_local_config.
  split; [|split].
  - rewrite !insert_insert_eq. reflexivity.
  - intros other Hne. rewrite !lookup_insert_ne by congruence. reflexivity.
  - intros ->. reflexivity.
Qed.

Lemma register_with_token (config_path server_url t : string) (srv : option string)
    (resp : Response RegisterData) (fs : gmap string FileContent) :
  t <> EmptyString ->
  register config_path server_url {| token := Some t; server := srv |} resp fs
  = RegContinue t fs false.
Proof.
  intros Ht. unfold register, no_token. simpl.
  rewrite bool_decide_eq_false_2 by exact Ht. reflexivity.
Qed.

(** X16.  A start without a stored token that is answered 200 with a
    non-empty token continues with that token and leaves a state file
    from which the token and the server URL are loaded; every later start
    on that file continues with the same token without sending a
    registration request and without writing the file, whatever the
    server would answer. *)
Theorem registration_survives_restart (config_path server_url t : string)
    (local_cfg : LocalConfig) (data : RegisterData)
    (fs : gmap string FileContent) :
  t <> EmptyString ->
  load_local_config fs config_path = Loaded local_cfg ->
  no_token local_cfg = true ->
  reg_token data = Some t ->
  exists fs',
    load_and_register config_path server_url (HttpResponse 200 data) fs
    = RegContinue t fs' true /\
    load_local_config fs' config_path
    = Loaded {| token := Some t; server := Some server_url |} /\
    (forall server_url' resp',
       load_and_register config_path server_url' resp' fs'
       = RegContinue t fs' false).
Proof.
  intros Ht Hload Hno Htok.
  exists (save_local_config config_path
            {| token := Some t; server := Some server_url |} fs).
  assert (Hl : load_local_config
                 (save_local_config config_path
                    {| token := Some t; server := Some server_url |} fs) config_path
               = Loaded {| token := Some t; server := Some server_url |}).
  { unfold save_local_config, dump_close, open_w, load_local_config.
    rewrite lookup_insert_eq. reflexivity. }
  split; [|split].
  - unfold load_and_register. rewrite Hload. unfold register.
    rewrite Hno. simpl. rewrite Htok. reflexivity.
  - exact Hl.
  - intros server_url' resp'. unfold load_and_register. rewrite Hl.
    apply register_with_token, Ht.
Qed.

Lemma registration_survives_restart_witness :
  exists fs',
    load_and_register Sample.config_path "https://x"
      (HttpResponse 200 {| reg_token := Some "abc"%string;
                           reg_status := Some "ok"%string |}) ∅
    = RegContinue "abc" fs' true /\
    load_local_config fs' Sample.config_path = Loaded Sample.new_state /\
    (forall server_url' resp',
       load_and_register Sample.config_path server_url' resp' fs'
       = RegContinue "abc" fs' false).
Proof.
  apply (registration_survives_restart Sample.config_path "https://x" "abc"
           {| token := None; server := None |}
           {| reg_token := Some "abc"%string; reg_status := Some "ok"%string |} ∅).
  - discriminate.
  - reflexivity.
  - reflexivity.
  - reflexivity.
Defined.

(** X17.  A start without a stored token (or with an empty one) whose
    registration request fails, or is answered with any status other than
    200 (409 included), ends in [sys.exit(1)]: the agent never goes on to
    pull a config without a token. *)
Theorem registration_failure_exits (config_path server_url : string)
    (local_cfg : LocalConfig) (resp : Response RegisterData)
    (fs : gmap string FileContent) :
  load_local_config fs config_path = Loaded local_cfg ->
  no_token local_cfg = true ->
  (forall data, resp <> HttpResponse 200 data) ->
  load_and_register config_path server_url resp fs = RegExit 1.
Proof.
  intros Hload Hno Hresp. unfold load_and_register. rewrite Hload.
  unfold register. rewrite Hno.
  destruct resp as [code data|]; [|reflexivity].
  destruct (code =? 200) eqn:E200.
  - apply Z.eqb_eq in E200. subst code. destruct (Hresp data). reflexivity.
  - destruct (code =? 409); reflexivity.
Qed.

Lemma registration_failure_exits_witness :
  load_and_register Sample.config_path "https://x"
    (HttpResponse 409 {| reg_token := None; reg_status := None |}) ∅
  = RegExit 1.
Proof.
  apply (registration_failure_exits Sample.config_path "https://x"
           {| token := None; server := None |}
           (HttpResponse 409 {| reg_token := None; reg_status := None |}) ∅).
  - reflexivity.
  - reflexivity.
  - intros data. discriminate.
Defined.

(** X18.  A state file left truncated by an interrupted save makes the
    next start fail in [json.load]: the agent neither registers again nor
    continues, whatever the server would answer. *)
Theorem truncated_state_blocks_start (config_path server_url : string)
    (data : LocalConfig) (resp : Response RegisterData)
    (fs : gmap string FileContent) (s : gmap string FileContent) :
  head (save_states config_path data fs) = Some s ->
  load_and_register config_path server_url resp s = RegDecodeError.
Proof.
  unfold save_states. simpl. intros [= <-].
  unfold load_and_register, load_local_config, open_w.
  rewrite lookup_insert_eq. reflexivity.
Qed.

Lemma truncated_state_blocks_start_witness :
  load_and_register Sample.config_path "https://x" RequestException
    (open_w Sample.config_path Sample.disk) = RegDecodeError.
Proof.
  apply (truncated_state_blocks_start Sample.config_path "https://x"
           Sample.new_state RequestException Sample.disk).
  reflexivity.
Defined.

End Registration.

(** ** Further properties of the two loops of [main] *)

Section LoopExtras.
Local Open Scope Z_scope.



(** What a single tick does to the interval. *)
Lemma report_tick_interval (args_interval : option Z) (st : MainState)
    (inp : TickInput) :
  let r := report_tick args_interval st inp in
  (forall d, EvSleep d ∈ tick_trace r -> d = interval (tick_state r)) /\
  (args_interval <> None -> interval (tick_state r) = interval st) /\
  (args_interval = None ->
   interval st = default DEFAULT_REPORT_INTERVAL (reportIntervalSec (monitor_config st)) ->
   interval (tick_state r)
   = default DEFAULT_REPORT_INTERVAL (reportIntervalSec (monitor_config (tick_state r)))).
Proof.
  cbv zeta. rewrite report_tick_unfold. cbv zeta.
  destruct (classify_report _ _) as [[known' [|]]|];
    unfold tick_end, tick_state, tick_trace; simpl.
  - split; [|split].
    + unfold sig_events. intros d Hd.
      repeat destruct (bool_decide _); simpl in Hd;
        repeat (apply elem_of_cons in Hd as [Hd|Hd]; [congruence || discriminate|]);
        inversion Hd.
    + intros Hargs. unfold refresh_config.
      destruct (ti_refresh inp) as [code c|]; [|reflexivity].
      destruct (code =? 200); [|reflexivity].
      destruct (bool_decide (c <> monitor_config st)); [|reflexivity]. simpl.
      rewrite (bool_decide_eq_false_2 (args_interval = None)) by exact Hargs.
      reflexivity.
    + intros -> Hsync. unfold refresh_config.
      destruct (ti_refresh inp) as [code c|]; [|exact Hsync].
      destruct (code =? 200); [|exact Hsync].
      destruct (bool_decide (c <> monitor_config st)); [|exact Hsync]. simpl.
      destruct (default DEFAULT_REPORT_INTERVAL (reportIntervalSec c) =? interval st) eqn:E;
        simpl; [|reflexivity].
      apply Z.eqb_eq in E. congruence.
  - split; [|split; auto].
    unfold sig_events. intros d Hd.
    repeat destruct (bool_decide _); simpl in Hd;
      repeat (apply elem_of_cons in Hd as [Hd|Hd]; [congruence || discriminate|]);
      inversion Hd.
  - split; [|split; auto].
    unfold sig_events. intros d Hd.
    repeat destruct (bool_decide _); simpl in Hd;
      repeat (apply elem_of_cons in Hd as [Hd|Hd]; [congruence || discriminate|]);
      inversion Hd.
Qed.

Lemma report_loop_pinned (i : Z) (inputs : list TickInput) (st : MainState) :
  let r := report_loop (Some i) st inputs in
  interval r.1.2 = interval st /\
  (forall d, EvSleep d ∈ r.2 -> d = interval st).
Proof.
  revert st. induction inputs as [|inp inputs IH]; intros st.
  - simpl. destruct (running st); simpl; split; auto; intros d Hd; inversion Hd.
  - destruct (running st) eqn:Hrun.
    2: { rewrite (report_loop_stopped _ _ _ Hrun). simpl.
         split; auto. intros d Hd. inversion Hd. }
    rewrite (report_loop_cons _ _ _ _ Hrun). cbv zeta.
    destruct (report_tick_interval (Some i) st inp) as (T1 & T2 & _).
    specialize (T2 ltac:(discriminate)).
    destruct (tick_end (report_tick (Some i) st inp)); simpl.
    + destruct (IH (tick_state (report_tick (Some i) st inp))) as [I1 I2].
      split; [congruence|]. intros d Hd.
      apply elem_of_app in Hd as [Hd|Hd].
      * rewrite (T1 d Hd). exact T2.
      * rewrite (I2 d Hd). exact T2.
    + split; [exact T2|]. intros d Hd. rewrite (T1 d Hd). exact T2.
Qed.

(** X20.  With [--interval i] given, the interval with which the report
    loop is entered is kept for the whole loop: no refreshed config
    changes it, and every sleep of the loop lasts exactly that long.
    ([i = 0] included, which enters the loop with the interval of the
    config and then keeps it.) *)
Theorem pinned_interval_kept (i : Z) (config : MonitorConfig) (prime : Probe)
    (inputs : list TickInput) :
  let st := enter_report_loop (Some i) config prime in
  let r := report_loop (Some i) st inputs in
  interval st
  = (if i =? 0 then default 5 (reportIntervalSec config) else i) /\
  interval r.1.2 = interval st /\
  (forall d, EvSleep d ∈ r.2 -> d = interval st).
Proof.
  intros st r. split; [reflexivity|]. apply report_loop_pinned.
Qed.

Lemma report_loop_unpinned (inputs : list TickInput) (st : MainState) :
  interval st = default DEFAULT_REPORT_INTERVAL (reportIntervalSec (monitor_config st)) ->
  let r := report_loop None st inputs in
  interval r.1.2
  = default DEFAULT_REPORT_INTERVAL (reportIntervalSec (monitor_config r.1.2)).
Proof.
  revert st. induction inputs as [|inp inputs IH]; intros st Hsync.
  - simpl. destruct (running st); simpl; exact Hsync.
  - destruct (running st) eqn:Hrun.
    2: { rewrite (report_loop_stopped _ _ _ Hrun). simpl. exact Hsync. }
    rewrite (report_loop_cons _ _ _ _ Hrun). cbv zeta.
    destruct (report_tick_interval None st inp) as (_ & _ & T3).
    specialize (T3 eq_refl Hsync).
    destruct (tick_end (report_tick None st inp)); simpl.
    + apply IH, T3.
    + exact T3.
Qed.

(** X21.  Without [--interval], the interval of the loop is at every
    point the [reportIntervalSec] of the config in force (5 when the
    config has no such key): a refresh that replaces the config brings
    the interval along. *)
Theorem unpinned_interval_follows_config (config : MonitorConfig) (prime : Probe)
    (inputs : list TickInput) :
  let r := report_loop None (enter_report_loop None config prime) inputs in
  interval r.1.2 = default 5 (reportIntervalSec (monitor_config r.1.2)).
Proof. apply report_loop_unpinned. reflexivity. Qed.

Lemma report_tick_posts (args_interval : option Z) (st : MainState)
    (inp : TickInput) :
  count is_post (tick_trace (report_tick args_interval st inp)) = 1%nat /\
  (count is_get (tick_trace (report_tick args_interval st inp)) <= 1)%nat.
Proof.
  rewrite report_tick_gets. rewrite report_tick_unfold. cbv zeta.
  destruct (classify_report _ _) as [[known' [|]]|];
    unfold tick_trace, count, sig_events;
    repeat destruct (bool_decide _); simpl; split; lia.
Qed.

(** X22.  In any run of the report loop every tick posts exactly one
    report, so there are never more reports than ticks, and never more
    config fetches than reports. *)
Theorem fetches_bounded_by_reports (args_interval : option Z)
    (inputs : list TickInput) (st : MainState) :
  let r := report_loop args_interval st inputs in
  (count is_get r.2 <= count is_post r.2)%nat /\
  (count is_post r.2 <= length inputs)%nat /\
  (r.1.1 = LoopPending -> count is_post r.2 = length inputs).
Proof.
  revert st. induction inputs as [|inp inputs IH]; intros st.
  - simpl. destruct (running st); simpl; repeat split; auto; discriminate.
  - destruct (running st) eqn:Hrun.
    2: { rewrite (report_loop_stopped _ _ _ Hrun). cbn [fst snd].
         split; [reflexivity|]. split; [unfold count; simpl; lia|].
         intros H. discriminate H. }
    rewrite (report_loop_cons _ _ _ _ Hrun). cbv zeta.
    destruct (report_tick_posts args_interval st inp) as [P1 P2].
    destruct (tick_end (report_tick args_interval st inp)); cbn [fst snd length].
    + destruct (IH (tick_state (report_tick args_interval st inp))) as (I1 & I2 & I3).
      rewrite !count_app. repeat split; try lia.
      intros Hp. rewrite (I3 Hp). lia.
    + repeat split; try lia. discriminate.
Qed.

(** X23.  A 200 response after any number of failed attempts ends the
    initial pull with the config of that response: each failed attempt
    was followed by its wait of 5, the successful one by none, and later
    responses are not asked for. *)
Theorem fetch_succeeds_after_retries (pre rest : list FetchInput)
    (retry_count : Z) (config : MonitorConfig) :
  Forall quiet_retry pre ->
  fetch_initial true retry_count
    (pre ++ {| fi_resp := HttpResponse 200 config; fi_signal := None |} :: rest)
  = (FetchOk config, retries retry_count (length pre) ++ [EvGetConfig]).
Proof.
  intros Hpre. rewrite (fetch_initial_retries _ _ _ Hpre). reflexivity.
Qed.

Lemma fetch_succeeds_after_retries_witness :
  fetch_initial true 0
    [Sample.timeout_attempt None; Sample.status_attempt 500; Sample.ok_attempt;
     Sample.status_attempt 401]
  = (FetchOk Sample.config10,
     [EvGetConfig; EvSleep 5; EvGetConfig; EvSleep 5; EvGetConfig]).
Proof.
  apply (fetch_succeeds_after_retries
           [Sample.timeout_attempt None; Sample.status_attempt 500]
           [Sample.status_attempt 401] 0 Sample.config10).
  repeat constructor; simpl; lia.
Defined.

Lemma fetch_initial_no_post (inputs : list FetchInput) (running : bool)
    (retry_count : Z) :
  count is_post (fetch_initial running retry_count inputs).2 = 0%nat.
Proof.
  revert running retry_count.
  induction inputs as [|inp rest IH]; intros running retry_count.
  - destruct running; reflexivity.
  - destruct running; [|reflexivity].
    cbn [fetch_initial]. cbv zeta.
    specialize (IH (deliver (fi_signal inp) [DuringRequest; DuringSleep] true)
                   (retry_count + 1)).
    destruct (fetch_initial _ (retry_count + 1) rest) as [e tr]. simpl in IH.
    assert (Hretry : count is_post
              ((EvGetConfig :: sig_events (fi_signal inp) DuringRequest)
               ++ retry_wait (retry_count + 1) (fi_signal inp) ++ tr) = 0%nat).
    { change (EvGetConfig :: ?l) with ([EvGetConfig] ++ l).
      unfold retry_wait. rewrite !count_app, IH, !count_sig_events by reflexivity.
      destruct (60 <? retry_count + 1); reflexivity. }
    assert (Hreq : count is_post
              (EvGetConfig :: sig_events (fi_signal inp) DuringRequest) = 0%nat).
    { change (EvGetConfig :: ?l) with ([EvGetConfig] ++ l).
      rewrite count_app, count_sig_events by reflexivity. reflexivity. }
    destruct (fi_resp inp) as [code body|]; [|exact Hretry].
    destruct (code =? 200); [exact Hreq|].
    destruct (code =? 401); [exact Hreq | exact Hretry].
Qed.

(** X24.  From the config pull on, a report is posted only after some
    attempt of the initial pull was answered 200: every other way the
    pull can end (a 401, cancellation, attempts that keep failing) comes
    with no report at all. *)
Theorem report_only_after_config (args_interval : option Z) (running0 : bool)
    (fetches : list FetchInput) (prime : Probe) (ticks : list TickInput) :
  let r := main_from_step3 args_interval running0 fetches prime ticks in
  ((0 < count is_post r.2)%nat ->
   exists inp config, inp ∈ fetches /\ fi_resp inp = HttpResponse 200 config) /\
  ((forall inp config, inp ∈ fetches -> fi_resp inp <> HttpResponse 200 config) ->
   count is_post r.2 = 0%nat).
Proof.
  unfold main_from_step3. cbv zeta.
  pose proof (fetch_initial_ends fetches running0 0) as Hend.
  pose proof (fetch_initial_no_post fetches running0 0) as Hpost.
  destruct (fetch_initial running0 0 fetches) as [[config|code| |rc] tr];
    simpl in Hend, Hpost.
  - destruct (report_loop _ _ ticks) as [[e st'] tr']. simpl.
    destruct Hend as (inp & Hin & Hr). split.
    + intros _. eauto.
    + intros Hno. destruct (Hno inp config Hin Hr).
  - simpl. rewrite Hpost. split; [lia | reflexivity].
  - simpl. rewrite Hpost. split; [lia | reflexivity].
  - simpl. rewrite Hpost. split; [lia | reflexivity].
Qed.

End LoopExtras.

(** ** What is posted *)

Section Posted.
Local Open Scope Q_scope.

Lemma posted_snapshot (args_interval : option Z) (st : MainState) (inp : TickInput)
    (snapshot : Snapshot) :
  EvPostReport snapshot ∈ tick_trace (report_tick args_interval st inp) ->
  snapshot = (annotated_snapshot (monitor_config st) (net_tracker st) (ti_probe inp)).1.
Proof.
  rewrite report_tick_unfold. cbv zeta.
  destruct (classify_report _ _) as [[known' [|]]|];
    unfold tick_trace, sig_events; simpl; intros Hd;
    repeat destruct (bool_decide _); simpl in Hd;
    repeat (apply elem_of_cons in Hd as [Hd|Hd]; [congruence || discriminate|]);
    inversion Hd.
Qed.

Lemma annotated_names (config : MonitorConfig) (t : NetworkRateTracker) (p : Probe) :
  name <$> nics (annotated_snapshot config t p).1
  = name <$> nics (collect_snapshot config (counters_collect p) (addrs_collect p)).
Proof.
  unfold annotated_snapshot. rewrite update_unfold. cbv zeta. simpl.
  apply update_loop_names.
Qed.

(** X25.  Every snapshot posted by the report loop honours the config in
    force at the start of its tick: it lists no interface twice, never
    the loopback interface, and, when the config has [nicNames], only
    interfaces named there. *)
Theorem posted_nics_filtered (args_interval : option Z) (st : MainState)
    (inp : TickInput) (snapshot : Snapshot) :
  EvPostReport snapshot ∈ tick_trace (report_tick args_interval st inp) ->
  NoDup (name <$> nics snapshot) /\
  (forall nic, nic ∈ nics snapshot ->
     name nic <> "lo"%string /\
     (forall l, nicNames (monitor_config st) = Some l -> name nic ∈ l)).
Proof.
  intros ->%posted_snapshot. rewrite annotated_names. split.
  - apply collect_snapshot_NoDup.
  - intros nic Hin.
    assert (Hn : name nic ∈ name <$> nics (annotated_snapshot (monitor_config st)
                                             (net_tracker st) (ti_probe inp)).1).
    { apply list_elem_of_fmap. eauto. }
    rewrite annotated_names in Hn.
    apply list_elem_of_fmap in Hn as (nic0 & Hname & Hin0).
    apply collect_snapshot_nics_iff in Hin0 as (_ & Hlo & Hf & _).
    rewrite Hname. split; assumption.
Qed.

Lemma posted_nics_filtered_witness :
  let snapshot :=
    (annotated_snapshot Sample.config10 (net_tracker Sample.recorded1)
       (Sample.probe 105)).1 in
  NoDup (name <$> nics snapshot) /\
  (forall nic, nic ∈ nics snapshot ->
     name nic <> "lo"%string /\
     (forall l, nicNames (monitor_config Sample.recorded1) = Some l -> name nic ∈ l)).
Proof.
  apply (posted_nics_filtered None Sample.recorded1
           (Sample.ok_tick 2 RequestException)).
  vm_compute. left.
Defined.

(** X26.  The first snapshot posted after the priming update already
    carries a measured rate: a NIC that had counters at the priming
    update and has counters now is reported with the rate of the bytes
    counted since the priming update over the time since then (within
    the tolerance of a report, never negative, 0 when the counter went
    down), provided the clock advanced. *)
Theorem first_report_is_measured (args_interval : option Z) (config : MonitorConfig)
    (prime : Probe) (inp : TickInput) (snapshot : Snapshot) (nic' : Nic)
    (c0 c1 : Counters) :
  let st := enter_report_loop args_interval config prime in
  let dt := now_update (ti_probe inp) - now_update prime in
  EvPostReport snapshot ∈ tick_trace (report_tick args_interval st inp) ->
  0 < dt ->
  nic' ∈ nics snapshot ->
  is_Some (counters_collect prime !! name nic') ->
  counters_update prime !! name nic' = Some c0 ->
  counters_update (ti_probe inp) !! name nic' = Some c1 ->
  measured (rxMbps nic') (bytes_recv c1) (bytes_recv c0) dt /\
  measured (txMbps nic') (bytes_sent c1) (bytes_sent c0) dt.
Proof.
  intros st dt ->%posted_snapshot Hdt Hin Hprime Hc0 Hc1.
  subst st. simpl in Hin.
  assert (Hn : name nic' ∈ name <$> nics (annotated_snapshot config
                 (annotated_snapshot config new_tracker prime).2 (ti_probe inp)).1).
  { apply list_elem_of_fmap. eauto. }
  rewrite annotated_names in Hn.
  apply list_elem_of_fmap in Hn as (nic0 & Hname & Hin0).
  apply collect_snapshot_nics_iff in Hin0 as (_ & Hlo & Hf & _).
  rewrite <- Hname in Hlo, Hf.
  unfold annotated_snapshot in Hin.
  apply (update_after_update_measured new_tracker
           (collect_snapshot config (counters_collect prime) (addrs_collect prime))
           (collect_snapshot config (counters_collect (ti_probe inp))
              (addrs_collect (ti_probe inp)))
           config (counters_update prime) (counters_update (ti_probe inp))
           (now_update prime) (now_update (ti_probe inp)) nic' c0 c1);
    try assumption.
  - apply collect_snapshot_NoDup.
  - apply list_elem_of_fmap.
    exists {| name := name nic';
              ipv4 := lookup_ipv4 (addrs_collect prime) (name nic');
              rxMbps := 0; txMbps := 0 |}.
    split; [reflexivity|].
    apply collect_snapshot_nics_iff. simpl. repeat split; auto.
Qed.

Lemma first_report_is_measured_witness :
  let nic' := {| name := Sample.eth0; ipv4 := "10.0.0.5";
                 rxMbps := 40 # 10; txMbps := 20 # 10 |} in
  measured (rxMbps nic') 6000000 3500000 (105 - 100) /\
  measured (txMbps nic') 1254000 4000 (105 - 100).
Proof.
  apply (first_report_is_measured None Sample.config10 (Sample.probe 100)
           Sample.first_tick
           (annotated_snapshot Sample.config10
              (net_tracker Sample.entered) (ti_probe Sample.first_tick)).1
           {| name := Sample.eth0; ipv4 := "10.0.0.5";
              rxMbps := 40 # 10; txMbps := 20 # 10 |}
           {| bytes_sent := 4000; bytes_recv := 3500000 |}
           {| bytes_sent := 1254000; bytes_recv := 6000000 |}).
  - vm_compute. left.
  - reflexivity.
  - vm_compute. left.
  - vm_compute. eauto.
  - reflexivity.
  - reflexivity.
Defined.

(** X27.  The memory figures: with [0 <= available <= total], the used
    memory reported in GB is between 0 and the total reported in GB. *)
Theorem memory_used_within_total (mem_total mem_available : Z) :
  (0 <= mem_available <= mem_total)%Z ->
  0 <= memory_used_GB mem_total mem_available /\
  memory_used_GB mem_total mem_available <= memory_total_GB mem_total.
Proof.
  intros [H0 H1]. unfold memory_used_GB, memory_total_GB. split.
  - apply Qle_trans with (bytes_to_GB 0).
    + rewrite bytes_to_GB_0. unfold Qle. simpl. lia.
    + apply bytes_to_GB_mono. lia.
  - apply bytes_to_GB_mono. lia.
Qed.

Lemma memory_used_within_total_witness :
  0 <= memory_used_GB 34359738368 8589934592 /\
  memory_used_GB 34359738368 8589934592 <= memory_total_GB 34359738368.
Proof. apply (memory_used_within_total 34359738368 8589934592). lia. Defined.

End Posted.

(** ** The version protocol over a whole run *)

Section VersionHistory.

Variable args_interval : option Z.

Lemma accepted_version_200 (inp : TickInput) (v : Z) :
  accepted_version inp = Some v <->
  exists data, ti_report inp = HttpResponse 200 data
               /\ v = default 0 (configVersion data).
Proof.
  unfold accepted_version. destruct (ti_report inp) as [code data|].
  - destruct (code =? 200) eqn:E.
    + apply Z.eqb_eq in E. subst code. split.
      * intros [= <-]. eauto.
      * intros (d & [= <-] & ->). reflexivity.
    + apply Z.eqb_neq in E. split; [discriminate|].
      intros (d & [= -> _] & _). contradiction.
  - split; [discriminate | intros (d & Hd & _); discriminate].
Qed.

Lemma accepted_version_none (inp : TickInput) :
  accepted_version inp = None <-> forall data, ti_report inp <> HttpResponse 200 data.
Proof.
  split.
  - intros Hn data Hd.
    assert (H : accepted_version inp = Some (default 0 (configVersion data)))
      by (apply accepted_version_200; eauto).
    congruence.
  - intros Hno. destruct (accepted_version inp) as [v|] eqn:E; [|reflexivity].
    apply accepted_version_200 in E as (data & Hd & _). destruct (Hno _ Hd).
Qed.

(** While the announced versions are not negative, the variable holds the
    version of the last accepted report, and [-1] before any. *)
Lemma report_loop_recorded (pre : list TickInput) (st : MainState) (seen : option Z) :
  known_config_version st = default (-1) seen ->
  (forall k, seen = Some k -> 0 <= k) ->
  Forall (fun i => forall v, accepted_version i = Some v -> 0 <= v) pre ->
  (report_loop args_interval st pre).1.1 = LoopPending ->
  known_config_version (report_loop args_interval st pre).1.2
  = default (-1) (last_accepted seen pre) /\
  (forall k, last_accepted seen pre = Some k -> 0 <= k).
Proof.
  intros Hk Hseen Hpre. revert st seen Hk Hseen.
  induction Hpre as [|inp pre Hinp _ IH]; intros st seen Hk Hseen Hpend.
  - simpl in *. destruct (running st); simpl; auto.
  - destruct (running st) eqn:Hrun.
    2: { rewrite (report_loop_stopped _ _ _ Hrun) in Hpend. discriminate. }
    rewrite (report_loop_cons _ _ _ _ Hrun) in Hpend |- *. cbv zeta in Hpend |- *.
    destruct (refresh_iff_version_changed args_interval st inp)
      as (_ & _ & H200 & Hother & _).
    destruct (tick_end (report_tick args_interval st inp)) eqn:Hend;
      [|discriminate]. cbn [fst snd] in Hpend |- *. cbn [last_accepted].
    apply IH; [| |exact Hpend].
    + destruct (accepted_version inp) as [v|] eqn:Ev.
      * apply accepted_version_200 in Ev as (data & Hd & ->).
        apply (H200 data Hd).
      * rewrite (Hother (proj1 (accepted_version_none inp) Ev)). exact Hk.
    + destruct (accepted_version inp) as [v|] eqn:Ev.
      * intros k [= <-]. apply Hinp. reflexivity.
      * exact Hseen.
Qed.

(** X28.  With announced versions that are not negative, the report loop
    follows the version protocol over a whole run: after any number of
    ticks that the loop went through (none of its sleeps was given a
    negative interval) the recorded version is the one of the last accepted report,
    and the next tick makes a config fetch exactly when its report is
    accepted, some earlier report was accepted, and the version announced
    now differs from the one announced to the last accepted report.  In
    particular the first accepted report never triggers a fetch. *)
Theorem refresh_on_version_change (config : MonitorConfig) (prime : Probe)
    (pre : list TickInput) (inp : TickInput) :
  Forall (fun i => forall v, accepted_version i = Some v -> 0 <= v) pre ->
  let before :=
    report_loop args_interval (enter_report_loop args_interval config prime) pre in
  before.1.1 = LoopPending ->
  (forall d, EvSleep d ∈ before.2 -> 0 <= d) ->
  let r := report_tick args_interval before.1.2 inp in
  known_config_version before.1.2 = default (-1) (last_accepted None pre) /\
  (count is_get (tick_trace r) = 1%nat <->
   exists recorded v,
     last_accepted None pre = Some recorded
     /\ accepted_version inp = Some v /\ v <> recorded) /\
  (count is_get (tick_trace r) = 0%nat <->
   ~ exists recorded v,
       last_accepted None pre = Some recorded
       /\ accepted_version inp = Some v /\ v <> recorded).
Proof.
  intros Hpre before Hpend Hsleeps r.
  destruct (report_loop_recorded pre (enter_report_loop args_interval config prime)
              None eq_refl ltac:(discriminate) Hpre Hpend) as [Hk Hnn].
  fold before in Hk.
  destruct (refresh_iff_version_changed args_interval before.1.2 inp)
    as (H1 & H0 & _).
  fold r in H1, H0.
  assert (Hiff : refresh_needed (known_config_version before.1.2) (ti_report inp)
                 <-> exists recorded v,
                       last_accepted None pre = Some recorded
                       /\ accepted_version inp = Some v /\ v <> recorded).
  { rewrite Hk. unfold refresh_needed. split.
    - intros (data & Hd & Hnonneg & Hne).
      destruct (last_accepted None pre) as [recorded|]; simpl in *; [|lia].
      exists recorded, (default 0 (configVersion data)).
      split; [reflexivity|]. split; [|exact Hne].
      apply accepted_version_200. eauto.
    - intros (recorded & v & Hl & Hv & Hne). rewrite Hl. simpl.
      apply accepted_version_200 in Hv as (data & Hd & ->).
      exists data. split; [exact Hd|]. split; [apply Hnn, Hl | exact Hne]. }
  split; [exact Hk|]. split.
  - rewrite H1. exact Hiff.
  - rewrite H0, Hiff. reflexivity.
Qed.

End VersionHistory.

Lemma refresh_on_version_change_witness :
  let before := report_loop None Sample.entered [Sample.ok_tick 1 RequestException] in
  let r := report_tick None before.1.2
             (Sample.ok_tick 2 (HttpResponse 200 Sample.config30)) in
  known_config_version before.1.2 = 1 /\
  count is_get (tick_trace r) = 1%nat.
Proof.
  destruct (refresh_on_version_change None Sample.config10 (Sample.probe 100)
              [Sample.ok_tick 1 RequestException]
              (Sample.ok_tick 2 (HttpResponse 200 Sample.config30)))
    as (H1 & H2 & _).
  - repeat constructor. intros v [= <-]. lia.
  - reflexivity.
  - vm_compute. intros d Hd.
    repeat (apply elem_of_cons in Hd as [Hd|Hd]; [inversion Hd; discriminate|]).
    inversion Hd.
  - split; [exact H1|]. apply H2. exists 1, 2. repeat split. discriminate.
Defined.
